(** * EquationEditorModal: the [\clr{name}{content}] annotation engine

    A shallow embedding of the string-processing core of
    [src/components/editing/EquationEditorModal.tsx]: the extraction of
    coloured terms from the LaTeX markup ([parseTermsFromLatex]), the
    rewriting of annotations for the preview ([processedLatex]) and the
    three structured edits ([handleUpdateTerm], [handleRemoveTerm],
    [handleAddTerm]), with the state of the modal they act on, the rows of
    the terms tab ([TermEditor]) that call them, and the events of the modal.

    JavaScript strings are modelled as lists of characters ([list ascii], so
    with 8-bit characters in place of UTF-16 code units), the colour map (a
    [Record<string, string>]) as the [gmap] of its own entries, looked up as
    a plain object is: in its own entries first, then among the members of
    [Object.prototype].  The regular expressions of the
    source are not hard-wired: their source text is built as the code builds
    it and handed to a small model of the [RegExp] constructor and of its
    backtracking matcher. *)

From Stdlib Require Import List Ascii String Bool Arith Lia DecimalString DecimalNat.
From stdpp Require Import gmap strings.
Import ListNotations.

Local Open Scope list_scope.
Local Open Scope char_scope.

(** A JavaScript string. *)
Abbreviation str := (list ascii).

(** String literals of the source, as character lists. *)
Definition lit (s : string) : str := list_ascii_of_string s.

(** ** A model of the part of [RegExp] the editor relies on *)

Module RegExp.

(** One-character matchers: a literal, [.] and the negated class [[^c]]. *)
Inductive cset :=
| CChar (c : ascii)
| CAny
| CNot (c : ascii).

Definition is_line_terminator (c : ascii) : bool :=
  Ascii.eqb c "010" || Ascii.eqb c "013".

Definition cmatch (cs : cset) (c : ascii) : bool :=
  match cs with
  | CChar a => Ascii.eqb a c
  | CAny => negb (is_line_terminator c)
  | CNot a => negb (Ascii.eqb a c)
  end.

(** Greedy quantifiers on a one-character atom. *)
Inductive quant := One | Plus | Star | Opt.

(** A pattern is a sequence of items; capture groups are not nested and not
    quantified, so they are kept as a pair of brackets in the sequence. *)
Inductive item :=
| Atom (cs : cset) (q : quant)
| GOpen
| GClose
| Bol
| Eol.

Definition regex := list item.

(** The SyntaxCharacters of the pattern grammar. *)
Definition is_syntax_char (c : ascii) : bool :=
  existsb (Ascii.eqb c) (lit "^$\.*+?()[]{}|").

Definition quantify (q : quant) (acc : list item) : option (list item) :=
  match acc with
  | Atom cs One :: acc' => Some (Atom cs q :: acc')
  | _ => None
  end.

(** [new RegExp(src, 'g')].  [None] stands for a pattern the constructor
    rejects with a SyntaxError (an unterminated group, a quantifier with
    nothing to repeat, a trailing backslash) and for a pattern outside the
    fragment modelled here (alternation, nested or quantified groups, lazy
    and braced quantifiers, class escapes, character classes other than
    [[^c]], a bare bracket or brace). [acc] holds the items read so far,
    last one first. *)
Fixpoint parse (ingroup : bool) (acc : list item) (src : str) : option regex :=
  match src with
  | [] => if ingroup then None else Some (rev acc)
  | c :: t =>
    if Ascii.eqb c "\" then
      match t with
      | e :: t' =>
        if is_syntax_char e || Ascii.eqb e "/"
        then parse ingroup (Atom (CChar e) One :: acc) t'
        else None
      | [] => None
      end
    else if Ascii.eqb c "[" then
      match t with
      | h :: x :: b :: t' =>
        if Ascii.eqb h "^" && Ascii.eqb b "]"
           && negb (Ascii.eqb x "\") && negb (Ascii.eqb x "]")
        then parse ingroup (Atom (CNot x) One :: acc) t'
        else None
      | _ => None
      end
    else if Ascii.eqb c "." then parse ingroup (Atom CAny One :: acc) t
    else if Ascii.eqb c "(" then
      match ingroup, t with
      | false, [] => None
      | false, q :: _ =>
        if Ascii.eqb q "?" then None else parse true (GOpen :: acc) t
      | true, _ => None
      end
    else if Ascii.eqb c ")" then
      if ingroup then parse false (GClose :: acc) t else None
    else if Ascii.eqb c "^" then parse ingroup (Bol :: acc) t
    else if Ascii.eqb c "$" then parse ingroup (Eol :: acc) t
    else if Ascii.eqb c "*" then
      match quantify Star acc with Some acc' => parse ingroup acc' t | None => None end
    else if Ascii.eqb c "+" then
      match quantify Plus acc with Some acc' => parse ingroup acc' t | None => None end
    else if Ascii.eqb c "?" then
      match quantify Opt acc with Some acc' => parse ingroup acc' t | None => None end
    else if is_syntax_char c then None
    else parse ingroup (Atom (CChar c) One :: acc) t
  end.

Definition compile (src : str) : option regex := parse false [] src.

(** *** The backtracking matcher

    [exec r bol g caps s] matches [r] against a prefix of [s] and returns the
    captured groups and the unmatched rest. [bol] tells whether [s] starts
    at index 0 of the input, [g] is the text at which the open group began,
    [caps] the groups closed so far. *)
Section Matcher.
Context {R : Type}.

(** Greedy iteration: take as many characters as possible, give one back
    at a time while the continuation fails. *)
Fixpoint star (cs : cset) (k : bool -> str -> option R) (bol : bool) (s : str)
  : option R :=
  match s with
  | c :: s' =>
    if cmatch cs c then
      match star cs k false s' with
      | Some x => Some x
      | None => k bol s
      end
    else k bol s
  | [] => k bol []
  end.
End Matcher.

Fixpoint exec (r : regex) (bol : bool) (g : option str) (caps : list str) (s : str)
  : option (list str * str) :=
  match r with
  | [] => Some (caps, s)
  | Atom cs One :: r' =>
    match s with
    | c :: s' => if cmatch cs c then exec r' false g caps s' else None
    | [] => None
    end
  | Atom cs Star :: r' => star cs (fun b s' => exec r' b g caps s') bol s
  | Atom cs Plus :: r' =>
    match s with
    | c :: s' =>
      if cmatch cs c then star cs (fun b s' => exec r' b g caps s') false s' else None
    | [] => None
    end
  | Atom cs Opt :: r' =>
    match s with
    | c :: s' =>
      if cmatch cs c then
        match exec r' false g caps s' with
        | Some x => Some x
        | None => exec r' bol g caps s
        end
      else exec r' bol g caps s
    | [] => exec r' bol g caps []
    end
  | GOpen :: r' => exec r' bol (Some s) caps s
  | GClose :: r' =>
    match g with
    | Some s0 => exec r' bol None (caps ++ [firstn (length s0 - length s) s0]) s
    | None => None
    end
  | Bol :: r' => if bol then exec r' bol g caps s else None
  | Eol :: r' =>
    match s with
    | [] => exec r' bol g caps s
    | _ :: _ => None
    end
  end.

(** The match object: [index], [match[0]] and the groups [match[1..]]. *)
Record MatchResult := {
  index : nat;
  matched : str;
  groups : list str
}.

(** The input cut by the successive matches of a global pattern: a
    character no match covers, or a match. *)
Inductive token :=
| Skip (c : ascii)
| Hit (m : MatchResult).

(** The left-to-right scan of a global ([g]) pattern, as [exec] in a loop and
    [String.prototype.replace] perform it: try at the current index, resume
    after the match (one character further when the match is empty, as
    [replace] does; no pattern of the editor matches the empty string).
    [skip] counts the characters of the current match still to pass over,
    [pos] is the current index. *)
Fixpoint scan (r : regex) (skip pos : nat) (s : str) : list token :=
  match s with
  | [] =>
    match skip, exec r (Nat.eqb pos 0) None [] [] with
    | O, Some (caps, _) => [Hit {| index := pos; matched := []; groups := caps |}]
    | _, _ => []
    end
  | c :: s' =>
    match skip with
    | S k => scan r k (S pos) s'
    | O =>
      match exec r (Nat.eqb pos 0) None [] s with
      | Some (caps, rest) =>
        let n := length s - length rest in
        Hit {| index := pos; matched := firstn n s; groups := caps |}
        :: match n with
           | O => Skip c :: scan r 0 (S pos) s'
           | S k => scan r k (S pos) s'
           end
      | None => Skip c :: scan r 0 (S pos) s'
      end
    end
  end.

Definition tokens (r : regex) (s : str) : list token := scan r 0 0 s.

(** The matches alone, in order: what the [exec] loop sees. *)
Fixpoint hits (ts : list token) : list MatchResult :=
  match ts with
  | [] => []
  | Skip _ :: ts' => hits ts'
  | Hit m :: ts' => m :: hits ts'
  end.

(** [s.replace(r, f)] with a replacer function: the value [f] returns is
    inserted as it is. *)
Definition replace_fn (r : regex) (f : MatchResult -> str) (s : str) : str :=
  concat (map (fun t => match t with Skip c => [c] | Hit m => f m end) (tokens r s)).

Definition digit (c : ascii) : option nat :=
  let n := nat_of_ascii c in
  if ((48 <=? n) && (n <=? 57))%nat then Some (n - 48) else None.

(** GetSubstitution: the expansion of a replacement string. [$$], [$&],
    [$`], [$'] and [$n], [$nn] for an existing group are replaced; any
    other [$] stands for itself (there are no named groups). *)
Fixpoint expand (input : str) (m : MatchResult) (tpl : str) : str :=
  match tpl with
  | [] => []
  | c :: t =>
    if Ascii.eqb c "$" then
      match t with
      | [] => [c]
      | d :: t' =>
        if Ascii.eqb d "$" then d :: expand input m t'
        else if Ascii.eqb d "&" then matched m ++ expand input m t'
        else if Ascii.eqb d "`" then firstn (index m) input ++ expand input m t'
        else if Ascii.eqb d "'" then
          skipn (index m + length (matched m)) input ++ expand input m t'
        else
          let cap i := nth (i - 1) (groups m) [] in
          let one n1 :=
            if ((1 <=? n1) && (n1 <=? length (groups m)))%nat
            then cap n1 ++ expand input m t'
            else c :: expand input m t in
          match digit d with
          | Some n1 =>
            match t' with
            | d2 :: t'' =>
              match digit d2 with
              | Some n2 =>
                let nn := 10 * n1 + n2 in
                if (length (groups m) <? nn)%nat then one n1
                else if (1 <=? nn)%nat then cap nn ++ expand input m t''
                else c :: d :: d2 :: expand input m t''
              | None => one n1
              end
            | [] => one n1
            end
          | None => c :: expand input m t
          end
      end
    else c :: expand input m t
  end.

(** [s.replace(r, tpl)] with a replacement string. *)
Definition replace_str (r : regex) (tpl : str) (s : str) : str :=
  concat (map (fun t => match t with Skip c => [c] | Hit m => expand s m tpl end)
              (tokens r s)).

End RegExp.

Import RegExp.

(** ** The editor *)

(** Color presets for equation terms. *)
Record Preset := { label : str; value : str }.

Definition COLOR_PRESETS : list Preset := [
  {| label := lit "Red"; value := lit "#ef4444" |};
  {| label := lit "Blue"; value := lit "#3b82f6" |};
  {| label := lit "Green"; value := lit "#22c55e" |};
  {| label := lit "Orange"; value := lit "#f97316" |};
  {| label := lit "Purple"; value := lit "#a855f7" |};
  {| label := lit "Cyan"; value := lit "#06b6d4" |};
  {| label := lit "Pink"; value := lit "#ec4899" |};
  {| label := lit "Yellow"; value := lit "#eab308" |}
].

(** [COLOR_PRESETS[i % COLOR_PRESETS.length].value] *)
Definition presetAt (i : nat) : str :=
  value (nth (i mod length COLOR_PRESETS) COLOR_PRESETS {| label := []; value := [] |}).

Record Term := { name : str; content : str; color : str }.

(** [v || d] on a looked-up colour: a missing entry ([undefined]) and the
    empty string are both falsy. *)
Definition or_else (v : option str) (d : str) : str :=
  match v with
  | Some ((_ :: _) as c) => c
  | _ => d
  end.

(** The colour map is a plain object: a name that is not one of its own
    keys is looked up in [Object.prototype]. Its members are functions, but
    for [__proto__], an accessor that gives [Object.prototype] itself: none is
    a string, and all are truthy. The modal hands a colour on as it is,
    compares it with the strings of the presets, and converts it to a string
    in the template literal of the preview. A colour that is not a string is
    kept here as the string it converts to, which is not empty and is none of
    the presets; for a built-in function this is the text that V8 gives. *)
Definition prototype_functions : list (str * str) := [
  (lit "constructor", lit "Object");
  (lit "__defineGetter__", lit "__defineGetter__");
  (lit "__defineSetter__", lit "__defineSetter__");
  (lit "hasOwnProperty", lit "hasOwnProperty");
  (lit "__lookupGetter__", lit "__lookupGetter__");
  (lit "__lookupSetter__", lit "__lookupSetter__");
  (lit "isPrototypeOf", lit "isPrototypeOf");
  (lit "propertyIsEnumerable", lit "propertyIsEnumerable");
  (lit "toString", lit "toString");
  (lit "valueOf", lit "valueOf");
  (lit "toLocaleString", lit "toLocaleString")
].

Fixpoint assoc (k : str) (l : list (str * str)) : option str :=
  match l with
  | [] => None
  | (k', v) :: l' => if decide (k = k') then Some v else assoc k l'
  end.

(** [Object.prototype[k]], converted to a string. *)
Definition inherited (k : str) : option str :=
  if decide (k = lit "__proto__") then Some (lit "[object Object]")
  else match assoc k prototype_functions with
       | Some f => Some (lit "function " ++ f ++ lit "() { [native code] }")
       | None => None
       end.

(** [o[k]] on a plain object with the own entries [o]. *)
Definition prop (o : gmap str str) (k : str) : option str :=
  match o !! k with
  | Some v => Some v
  | None => inherited k
  end.

(** The pattern [/\\clr\{([^}]+)\}\{([^}]+)\}/g], used by
    [parseTermsFromLatex] and by the preview. *)
Definition clr_source : str := lit "\\clr\{([^}]+)\}\{([^}]+)\}".

(** Its compiled form ([clr_regex_source] below). *)
Definition clr_regex : regex :=
  [ Atom (CChar "\") One; Atom (CChar "c") One; Atom (CChar "l") One;
    Atom (CChar "r") One; Atom (CChar "{") One;
    GOpen; Atom (CNot "}") Plus; GClose;
    Atom (CChar "}") One; Atom (CChar "{") One;
    GOpen; Atom (CNot "}") Plus; GClose;
    Atom (CChar "}") One ].

(** The body of the [while ((match = pattern.exec(latexStr)) !== null)] loop,
    run over the successive matches: [foundTerms.push(...)]. *)
Fixpoint pushTerms (colors : gmap str str) (ms : list MatchResult) (foundTerms : list Term)
  : list Term :=
  match ms with
  | [] => foundTerms
  | m :: ms' =>
    let termName := nth 0 (groups m) [] in
    let content := nth 1 (groups m) [] in
    pushTerms colors ms'
      (foundTerms ++
       [ {| name := termName;
            content := content;
            color := or_else (prop colors termName) (presetAt (length foundTerms)) |} ])
  end.

(** Parse [\clr{term}{content}] from LaTeX; the result is what [setTerms]
    receives. *)
Definition parseTermsFromLatex (latexStr : str) (colors : gmap str str) : list Term :=
  pushTerms colors (hits (tokens clr_regex latexStr)) [].

(** The preview: [processedLatex.replace(clrPattern, (_, termName, content) => ...)],
    the string handed to [katex.render]. *)
Definition processedLatex (latex : str) (colorMap : gmap str str) : str :=
  replace_fn clr_regex
    (fun m =>
       let termName := nth 0 (groups m) [] in
       let content := nth 1 (groups m) [] in
       let color := or_else (prop colorMap termName) (lit "#888888") in
       lit "\textcolor{" ++ color ++ lit "}{" ++ content ++ lit "}")
    latex.

(** The [setLatex] updater of [handleUpdateTerm]: the pattern is built from
    the term name, the replacement from the name and the new content. [None]
    when the pattern does not compile: the constructor throws, or the
    pattern is beyond the part of [RegExp] that is modelled. *)
Definition updateTermLatex (termName newContent prev : str) : option str :=
  match compile (lit "\\clr\{" ++ termName ++ lit "\}\{[^}]+\}") with
  | Some pattern =>
    Some (replace_str pattern
            (lit "\clr{" ++ termName ++ lit "}{" ++ newContent ++ lit "}") prev)
  | None => None
  end.

(** The [setLatex] updater of [handleRemoveTerm]: convert to plain content. *)
Definition removeTermLatex (termName prev : str) : option str :=
  match compile (lit "\\clr\{" ++ termName ++ lit "\}\{([^}]+)\}") with
  | Some pattern => Some (replace_str pattern (lit "$1") prev)
  | None => None
  end.

(** The three pieces of state of the modal. *)
Record State := {
  latex : str;
  colorMap : gmap str str;
  terms : list Term
}.

(** The textarea's [onChange]. *)
Definition handleLatexChange (st : State) (newLatex : str) : State :=
  {| latex := newLatex;
     colorMap := colorMap st;
     terms := parseTermsFromLatex newLatex (colorMap st) |}.

Definition handleUpdateTerm (st : State) (termName newContent newColor : str)
  : option State :=
  match updateTermLatex termName newContent (latex st) with
  | Some l =>
    Some {| latex := l;
            colorMap := <[termName := newColor]> (colorMap st);
            terms := map (fun t =>
                            if decide (name t = termName)
                            then {| name := name t; content := newContent; color := newColor |}
                            else t)
                         (terms st) |}
  | None => None
  end.

Definition handleRemoveTerm (st : State) (termName : str) : option State :=
  match removeTermLatex termName (latex st) with
  | Some l =>
    Some {| latex := l;
            colorMap := delete termName (colorMap st);
            terms := filter (fun t => name t <> termName) (terms st) |}
  | None => None
  end.

(** [s.substring(a, b)]: both indices are clamped to the length and swapped
    when [a > b]. *)
Definition substring (s : str) (a b : nat) : str :=
  let a' := Nat.min a (length s) in
  let b' := Nat.min b (length s) in
  firstn (Nat.max a' b' - Nat.min a' b') (skipn (Nat.min a' b') s).

(** [s.substring(a)] *)
Definition substring_from (s : str) (a : nat) : str := skipn a s.

(** The decimal digits of a number, as a template literal prints it. *)
Definition number (n : nat) : str := lit (NilEmpty.string_of_uint (Nat.to_uint n)).

(** What [handleAddTerm] reads of the textarea element. *)
Record Textarea := { selectionStart : nat; selectionEnd : nat }.

(** Add new colored term, around the selection [start, end) of the textarea
    (or at the cursor when the selection is empty). [textarea] is
    [textareaRef.current]: the element, or [null], and then nothing is
    done. *)
Definition handleAddTerm (st : State) (textarea : option Textarea) : State :=
  let newTermName := lit "term" ++ number (length (terms st) + 1) in
  let newColor := presetAt (length (terms st)) in
  match textarea with
  | Some textarea =>
    let start := selectionStart textarea in
    let end_ := selectionEnd textarea in
    let selectedText :=
      match substring (latex st) start end_ with
      | [] => lit "text"
      | t => t
      end in
    let newLatex :=
      substring (latex st) 0 start
      ++ lit "\clr{" ++ newTermName ++ lit "}{" ++ selectedText ++ lit "}"
      ++ substring_from (latex st) end_ in
    {| latex := newLatex;
       colorMap := <[newTermName := newColor]> (colorMap st);
       terms := terms st ++ [ {| name := newTermName; content := selectedText; color := newColor |} ] |}
  | None => st
  end.

(** ** Auxiliary notions for the statements *)

(** [x] does not occur in [s]. *)
Definition no_char (x : ascii) (s : str) : bool :=
  forallb (fun c => negb (Ascii.eqb x c)) s.

Definition nonempty (s : str) : bool :=
  match s with
  | [] => false
  | _ :: _ => true
  end.

(** The longest prefix without a closing brace, and what follows it. *)
Fixpoint until_close (s : str) : str * str :=
  match s with
  | [] => ([], [])
  | c :: s' =>
    if Ascii.eqb "}" c then ([], s)
    else let '(u, t) := until_close s' in (c :: u, t)
  end.

(** [s] without its prefix [p], when it has it. *)
Fixpoint strip_prefix (p s : str) : option str :=
  match p, s with
  | [], _ => Some s
  | a :: p', c :: s' => if Ascii.eqb a c then strip_prefix p' s' else None
  | _ :: _, [] => None
  end.

(** A name free of pattern syntax: every character stands for itself when the
    name is pasted into a pattern or a replacement string. *)
Definition plain (s : str) : bool := forallb (fun c => negb (is_syntax_char c)) s.

(** How an annotation opens, and the text of one annotation. *)
Definition opener : str := lit "\clr{".

Definition annotation (n c : str) : str :=
  opener ++ n ++ lit "}{" ++ c ++ lit "}".

(** The pattern of a literal text. *)
Definition lits (p : str) : regex := map (fun c => Atom (CChar c) One) p.

(** *** Flat markup

    [s] starts like an opener: it begins with [\clr{], or it is cut short
    inside one. *)
Definition clash (s : str) : bool :=
  match strip_prefix opener s, strip_prefix s opener with
  | None, None => false
  | _, _ => true
  end.

(** [s] is calm when no opener starts in it, not even one that its end cuts
    short. *)
Fixpoint calm (s : str) : bool :=
  match s with
  | [] => true
  | _ :: t => negb (clash s) && calm t
  end.

(** A markup seen as a sequence of pieces: plain text and annotations. It is
    flat when every text, name and content is calm, and no name or content has
    a closing brace: the openers of the markup are those of its pieces. An
    annotation piece may have an empty name or content. *)
Inductive piece :=
| Text (t : str)
| Clr (n c : str).

Definition piece_text (p : piece) : str :=
  match p with
  | Text t => t
  | Clr n c => annotation n c
  end.

Definition unparse (ps : list piece) : str := concat (map piece_text ps).

Definition wf_piece (p : piece) : bool :=
  match p with
  | Text t => calm t
  | Clr n c => no_char "}" n && no_char "}" c && calm n && calm c
  end.

Definition flat (ps : list piece) : bool := forallb wf_piece ps.

(** The annotations of a sequence of pieces with a name and a content, in
    order. *)
Fixpoint annotations (ps : list piece) : list (str * str) :=
  match ps with
  | [] => []
  | Text _ :: ps' => annotations ps'
  | Clr n c :: ps' =>
    if nonempty n && nonempty c then (n, c) :: annotations ps' else annotations ps'
  end.

(** Name and content of the terms of a list. *)
Definition outline (ts : list Term) : list (str * str) :=
  map (fun t => (name t, content t)) ts.

(** The tokens a scan yields on flat pieces, when [hit n c] tells whether the
    pattern matches the annotation [\clr{n}{c}] and with which groups. *)
Fixpoint piece_tokens (hit : str -> str -> option (list str)) (pos : nat) (ps : list piece)
  : list token :=
  match ps with
  | [] => []
  | p :: ps' =>
    match p with
    | Text t => map Skip t
    | Clr n c =>
      match hit n c with
      | Some caps => [Hit {| index := pos; matched := annotation n c; groups := caps |}]
      | None => map Skip (annotation n c)
      end
    end ++ piece_tokens hit (pos + length (piece_text p)) ps'
  end.

(** Which annotations the three patterns match, and with which groups. *)
Definition hit_all (n c : str) : option (list str) :=
  if nonempty n && nonempty c then Some [n; c] else None.

Definition hit_update (N n c : str) : option (list str) :=
  if decide (n = N) then (if nonempty c then Some [] else None) else None.

Definition hit_remove (N n c : str) : option (list str) :=
  if decide (n = N) then (if nonempty c then Some [c] else None) else None.

(** The edits, on pieces: what happens to the annotations named [N] that have
    a content. *)
Definition set_content (N c' : str) (p : piece) : piece :=
  match p with
  | Clr n c => if decide (n = N) then (if nonempty c then Clr n c' else p) else p
  | Text _ => p
  end.

Definition strip (N : str) (p : piece) : piece :=
  match p with
  | Clr n c => if decide (n = N) then (if nonempty c then Text c else p) else p
  | Text _ => p
  end.

(** The patterns [handleUpdateTerm] and [handleRemoveTerm] build for a name
    free of pattern syntax. *)
Definition key (N : str) : str := opener ++ N ++ lit "}{".

Definition update_regex (N : str) : regex :=
  lits (key N) ++ [Atom (CNot "}") Plus; Atom (CChar "}") One].

Definition remove_regex (N : str) : regex :=
  lits (key N) ++ [GOpen; Atom (CNot "}") Plus; GClose; Atom (CChar "}") One].

(** An annotation named [N] with a content starts [v]: the pattern of
    [handleUpdateTerm] matches there. *)
Definition occurs (N v : str) : bool :=
  match exec (update_regex N) false None [] v with
  | Some _ => true
  | None => false
  end.

(** The text with [tpl] put in place of every match of the scan. *)
Definition rewritten (r : regex) (tpl : str) (pos : nat) (s : str) : str :=
  concat (map (fun k => match k with Skip c => [c] | Hit _ => tpl end) (scan r 0 pos s)).

(** All the patterns of the editor begin with the opener. *)
Definition starts_with_opener (r : regex) : Prop :=
  exists r', r = lits opener ++ r'.

(** Name and content a match stands for: [match[1]] and [match[2]]. *)
Definition captured (m : MatchResult) : str * str :=
  (nth 0 (groups m) [], nth 1 (groups m) []).

(** The markup cut into pieces by the scan of [parseTermsFromLatex]: one text
    piece per character outside the matches, one annotation per match. *)
Definition pieces (M : str) : list piece :=
  map (fun k => match k with
                | Skip c => Text [c]
                | Hit m => Clr (fst (captured m)) (snd (captured m))
                end)
      (tokens clr_regex M).

(** What the preview puts in place of a piece whose name [Object.prototype]
    does not define: the colour is the own entry of the name, or the
    fallback. *)
Definition rendered (colorMap : gmap str str) (p : piece) : str :=
  match p with
  | Text t => t
  | Clr n c =>
    lit "\textcolor{"
    ++ match colorMap !! n with
       | Some (x :: col) => x :: col
       | _ => lit "#888888"
       end
    ++ lit "}{" ++ c ++ lit "}"
  end.

(** A match of the scan that is an annotation with a name and a content. *)
Definition genuine (k : token) : Prop :=
  match k with
  | Skip _ => True
  | Hit m =>
    exists n c, groups m = [n; c] /\ matched m = annotation n c
                /\ n <> [] /\ c <> []
  end.

(** The text a token covers. *)
Definition raw (k : token) : str :=
  match k with
  | Skip c => [c]
  | Hit m => matched m
  end.

(** The entries of a given name. *)
Definition named (N : str) (l : list (str * str)) : list (str * str) :=
  filter (fun a => a.1 = N) l.

(** The state of the modal before an equation is loaded. *)
Definition initial : State := {| latex := []; colorMap := ∅; terms := [] |}.

(** *** The statements of the specification that the code does not meet,
    as they are worded *)

(** The scenario of the specification: the preview would use the palette
    colours of the terms. *)
Definition scenario : str := lit "x + \clr{a}{y} = \clr{b}{z}".

Definition scenario_as_specified : Prop :=
  parseTermsFromLatex scenario ∅
  = [ {| name := lit "a"; content := lit "y"; color := presetAt 0 |};
      {| name := lit "b"; content := lit "z"; color := presetAt 1 |} ]
  /\ processedLatex scenario ∅
     = lit "x + \textcolor{" ++ presetAt 0 ++ lit "}{y} = \textcolor{"
       ++ presetAt 1 ++ lit "}{z}".

(** The number of terms before index [i] whose name the colour map lacks. *)
Definition unknown_before (colors : gmap str str) (ts : list Term) (i : nat) : nat :=
  length (filter (fun t => colors !! name t = None) (take i ts)).

(** A term gets the colour of its name in the map, or else the preset whose
    index is its rank among the unknown terms. *)
Definition colors_as_specified (M : str) (colors : gmap str str) : Prop :=
  forall i t,
    parseTermsFromLatex M colors !! i = Some t ->
    color t = match colors !! name t with
              | Some c => c
              | None => presetAt (unknown_before colors (parseTermsFromLatex M colors) i)
              end.

(** Updating or removing [X] leaves the annotations named [Y] as they are. *)
Definition scoped_as_specified (M X Y c' : str) : Prop :=
  X <> Y ->
  (forall R, updateTermLatex X c' M = Some R ->
             named Y (outline (parseTermsFromLatex R ∅))
             = named Y (outline (parseTermsFromLatex M ∅)))
  /\ (forall R, removeTermLatex X M = Some R ->
                named Y (outline (parseTermsFromLatex R ∅))
                = named Y (outline (parseTermsFromLatex M ∅))).


(** The number of places of [s] at which the text [pat] stands. *)
Fixpoint count_sub (pat s : str) : nat :=
  (match strip_prefix pat s with Some _ => 1 | None => 0 end)
  + match s with
    | [] => 0
    | _ :: s' => count_sub pat s'
    end.

(** Writing its own content back into the one term named [N] keeps the term:
    the annotation [\clr{N}{C}] stands once in the markup and the extraction
    has one term named [N], of content [C]. *)
Definition roundtrip_as_specified (M N C : str) : Prop :=
  count_sub (annotation N C) M = 1 ->
  named N (outline (parseTermsFromLatex M ∅)) = [(N, C)] ->
  forall R, updateTermLatex N C M = Some R ->
  (N, C) ∈ outline (parseTermsFromLatex R ∅).

(** Removing twice is removing once. *)
Definition idempotent_as_specified (M N : str) : Prop :=
  forall R, removeTermLatex N M = Some R -> removeTermLatex N R = Some R.

(** The preview uses the entry of the colour map whenever there is one. *)
Definition rendered_as_specified (colorMap : gmap str str) (p : piece) : str :=
  match p with
  | Text t => t
  | Clr n c =>
    lit "\textcolor{"
    ++ match colorMap !! n with
       | Some col => col
       | None => lit "#888888"
       end
    ++ lit "}{" ++ c ++ lit "}"
  end.

Definition preview_as_specified (M : str) (colorMap : gmap str str) : Prop :=
  processedLatex M colorMap = concat (map (rendered_as_specified colorMap) (pieces M)).

(** A flat markup with other LaTeX commands around two annotations, for the
    examples. *)
Definition sample : list piece :=
  [ Text (lit "\frac{"); Clr (lit "a") (lit "y"); Text (lit "}{2} = ");
    Clr (lit "b") (lit "\alpha z"); Text (lit " + \sqrt{"); Clr (lit "a") (lit "y");
    Text (lit "}") ].

(** Two adjacent terms, the first of which has its colour in the map. *)
Definition two_terms : str := lit "\clr{a}{x}\clr{b}{y}".

Definition a_is_black : gmap str str := {[ lit "a" := lit "#000000" ]}.

(** An annotation [N] after an unfinished annotation [Y] that swallows the
    opener of another one. *)
Definition tangled : str := lit "\clr{Y}{\clr{N}{xx\clr{N}{C}".

(** One term named [a]. *)
Definition one_term : str := lit "\clr{a}{y}".


(** ** One row of the terms tab: the [TermEditor] component *)

Module TermEditor.

(** The props that carry data; the two others are the callbacks [onUpdate]
    and [onRemove]. *)
Record Props := { termName : str; content : str; color : str }.

(** [useState(content)] and [useState(false)]. *)
Record Local := { localContent : str; showColorPicker : bool }.

(** A call of one of the two callbacks, with its arguments. *)
Inductive call :=
| onUpdate (termName content color : str)
| onRemove (termName : str).

(** The local state of a row when it is first rendered. *)
Definition mount (p : Props) : Local :=
  {| localContent := content p; showColorPicker := false |}.

(** The content input: [onChange] and [onBlur]. *)
Definition onChange (l : Local) (value : str) : Local :=
  {| localContent := value; showColorPicker := showColorPicker l |}.

Definition onBlur (p : Props) (l : Local) : call :=
  onUpdate (termName p) (localContent l) (color p).

(** The colour button opens and closes the picker. *)
Definition togglePicker (l : Local) : Local :=
  {| localContent := localContent l; showColorPicker := negb (showColorPicker l) |}.

(** A preset button; the buttons are rendered while the picker shows. *)
Definition pickPreset (p : Props) (l : Local) (preset : Preset) : option (call * Local) :=
  if showColorPicker l
  then Some (onUpdate (termName p) (localContent l) (value preset),
             {| localContent := localContent l; showColorPicker := false |})
  else None.

(** The preset button with the marked border: [color === preset.value]. *)
Definition isCurrent (p : Props) (preset : Preset) : bool :=
  bool_decide (color p = value preset).

(** The remove button. *)
Definition clickRemove (p : Props) : call := onRemove (termName p).

End TermEditor.

(** ** The modal around the handlers *)

(** The equation under edition, as the editing context hands it over; its
    colour map may be missing. *)
Module Equation.
Record t := { latex : str; colorMap : option (gmap str str) }.
End Equation.

(** Initialize state when equation opens:
    [editingEquation.colorMap || {}]. *)
Definition initializeState (editingEquation : Equation.t) : State :=
  let colors := default ∅ (Equation.colorMap editingEquation) in
  {| latex := Equation.latex editingEquation;
     colorMap := colors;
     terms := parseTermsFromLatex (Equation.latex editingEquation) colors |}.

(** The arguments [handleSave] passes to [saveEquationEdit]. *)
Definition handleSave (st : State) : str * gmap str str := (latex st, colorMap st).

(** The rows of the terms tab: one [TermEditor] per term, wired to
    [handleUpdateTerm] and [handleRemoveTerm]. *)
Definition editorProps (t : Term) : TermEditor.Props :=
  {| TermEditor.termName := name t;
     TermEditor.content := content t;
     TermEditor.color := color t |}.

Definition callback (st : State) (c : TermEditor.call) : option State :=
  match c with
  | TermEditor.onUpdate termName newContent newColor =>
    handleUpdateTerm st termName newContent newColor
  | TermEditor.onRemove termName => handleRemoveTerm st termName
  end.

(** What can happen to the session of an open modal through the handlers:
    a new equation is handed over, the markup is typed in, the content input
    of row [i] loses the focus, a preset of row [i] is picked, row [i] is
    removed. [l] is the local state the row has at that time. *)
Inductive event :=
| EquationOpened (editingEquation : Equation.t)
| LatexChanged (value : str)
| ContentBlurred (i : nat) (l : TermEditor.Local)
| PresetPicked (i : nat) (l : TermEditor.Local) (k : nat)
| RemoveClicked (i : nat).

(** The state after an event. [None] when the pattern built from the name of
    the row does not compile (the constructor throws, or the pattern is
    beyond the part of [RegExp] that is modelled), and for an event on a row
    or a preset button that does not exist. *)
Definition react (st : State) (e : event) : option State :=
  match e with
  | EquationOpened editingEquation => Some (initializeState editingEquation)
  | LatexChanged value => Some (handleLatexChange st value)
  | ContentBlurred i l =>
    match terms st !! i with
    | Some t => callback st (TermEditor.onBlur (editorProps t) l)
    | None => None
    end
  | PresetPicked i l k =>
    match terms st !! i, COLOR_PRESETS !! k with
    | Some t, Some preset =>
      match TermEditor.pickPreset (editorProps t) l preset with
      | Some (c, _) => callback st c
      | None => None
      end
    | _, _ => None
    end
  | RemoveClicked i =>
    match terms st !! i with
    | Some t => callback st (TermEditor.clickRemove (editorProps t))
    | None => None
    end
  end.

(** *** The two tabs

    The modal shows one of two tabs: the LaTeX tab, with the textarea and the
    preview, and the terms tab, with the rows and the add button. *)
Inductive tab := LatexTab | TermsTab.

(** [activeTab === t] *)
Definition isTab (activeTab t : tab) : bool :=
  match activeTab, t with
  | LatexTab, LatexTab | TermsTab, TermsTab => true
  | _, _ => false
  end.

(** The session, [activeTab], and the selection of the textarea element of
    the LaTeX tab. *)
Record Modal := {
  session : State;
  activeTab : tab;
  textarea : Textarea
}.

(** [textareaRef.current]: the textarea is rendered on the LaTeX tab only;
    on the terms tab the element is not mounted and the ref holds [null]. *)
Definition textareaRef (m : Modal) : option Textarea :=
  match activeTab m with
  | LatexTab => Some (textarea m)
  | TermsTab => None
  end.

(** The tab that renders the element an event comes from; the equation comes
    from the editing context, whatever the tab. *)
Definition renderedOn (e : event) : option tab :=
  match e with
  | EquationOpened _ => None
  | LatexChanged _ => Some LatexTab
  | ContentBlurred _ _ | PresetPicked _ _ _ | RemoveClicked _ => Some TermsTab
  end.

(** What the user can do: raise an event of the session, switch to a tab
    ([selection] is the selection of the textarea that the LaTeX tab mounts
    then), select a range of the textarea, click the add button. *)
Inductive gesture :=
| Raised (e : event)
| TabClicked (t : tab) (selection : Textarea)
| Selected (selection : Textarea)
| AddTermClicked.

(** The modal after a gesture; [None] for a gesture on an element that the
    active tab does not render, and when [react] gives [None]. The add button
    is on the terms tab; its [onClick] is [handleAddTerm]. *)
Definition perform (m : Modal) (g : gesture) : option Modal :=
  match g with
  | Raised e =>
    match renderedOn e with
    | Some t =>
      if isTab (activeTab m) t
      then match react (session m) e with
           | Some st' =>
             Some {| session := st'; activeTab := activeTab m; textarea := textarea m |}
           | None => None
           end
      else None
    | None =>
      match react (session m) e with
      | Some st' =>
        Some {| session := st'; activeTab := activeTab m; textarea := textarea m |}
      | None => None
      end
    end
  | TabClicked t selection =>
    Some {| session := session m; activeTab := t; textarea := selection |}
  | Selected selection =>
    match activeTab m with
    | LatexTab =>
      Some {| session := session m; activeTab := LatexTab; textarea := selection |}
    | TermsTab => None
    end
  | AddTermClicked =>
    match activeTab m with
    | TermsTab =>
      Some {| session := handleAddTerm (session m) (textareaRef m);
              activeTab := activeTab m; textarea := textarea m |}
    | LatexTab => None
    end
  end.

Fixpoint performAll (gs : list gesture) (m : Modal) : option Modal :=
  match gs with
  | [] => Some m
  | g :: gs' =>
    match perform m g with
    | Some m' => performAll gs' m'
    | None => None
    end
  end.

(** The modal when it is mounted: [useState('latex')]. *)
Definition initialModal : Modal :=
  {| session := initial;
     activeTab := LatexTab;
     textarea := {| selectionStart := 0; selectionEnd := 0 |} |}.

(** The state [handleUpdateTerm] leaves when the rewrite of the markup gives
    [latex'], and the one [handleRemoveTerm] leaves: the three updaters are
    independent. *)
Definition updatedTo (st : State) (termName newContent newColor latex' : str) : State :=
  {| latex := latex';
     colorMap := <[termName := newColor]> (colorMap st);
     terms := map (fun t =>
                     if decide (name t = termName)
                     then {| name := name t; content := newContent; color := newColor |}
                     else t)
                  (terms st) |}.

Definition removedTo (st : State) (termName latex' : str) : State :=
  {| latex := latex';
     colorMap := delete termName (colorMap st);
     terms := filter (fun t => name t <> termName) (terms st) |}.

(** The states the session of the modal can be in. The step of an update or
    of a removal is taken for every markup the rewrite may give: the states
    reached through a pattern that is beyond the modelled part of [RegExp]
    are among them. The add button leaves the session as it is. *)
Inductive reachable : State -> Prop :=
| reachable_initial : reachable initial
| reachable_opened st editingEquation :
    reachable st -> reachable (initializeState editingEquation)
| reachable_typed st value :
    reachable st -> reachable (handleLatexChange st value)
| reachable_blurred st i t l latex' :
    reachable st -> terms st !! i = Some t ->
    reachable (updatedTo st (name t) (TermEditor.localContent l) (color t) latex')
| reachable_picked st i t l k preset latex' :
    reachable st -> terms st !! i = Some t -> COLOR_PRESETS !! k = Some preset ->
    reachable (updatedTo st (name t) (TermEditor.localContent l) (value preset) latex')
| reachable_removed st i t latex' :
    reachable st -> terms st !! i = Some t ->
    reachable (removedTo st (name t) latex').

(** ** Further notions for the statements *)

(** The terms the extraction builds from a list of names and contents, the
    first of which is at index [i]. *)
Fixpoint colorize (colors : gmap str str) (i : nat) (l : list (str * str)) : list Term :=
  match l with
  | [] => []
  | (n, c) :: l' =>
    {| name := n; content := c; color := or_else (prop colors n) (presetAt i) |}
    :: colorize colors (S i) l'
  end.

(** The term list is the one the extraction gives for the markup and the
    colour map of the state. *)
Definition in_sync (st : State) : Prop :=
  terms st = parseTermsFromLatex (latex st) (colorMap st).

(** A content that can stand in a flat markup and in a replacement string. *)
Definition editable (c : str) : bool :=
  nonempty c && no_char "}" c && calm c && no_char "$" c.

(** What the preview shows for a piece of a flat markup: an annotation
    without name or without content is not one for the scan. *)
Definition shown (colorMap : gmap str str) (p : piece) : str :=
  match p with
  | Text t => t
  | Clr n c => if nonempty n && nonempty c then rendered colorMap p else annotation n c
  end.

(** The saved markup and colour map, opened again. *)
Definition reopened (st : State) : State :=
  initializeState {| Equation.latex := (handleSave st).1;
                     Equation.colorMap := Some (handleSave st).2 |}.

(** The piece the preview leaves for a piece of a flat markup: the text of
    the [\textcolor] command for an annotation with a name and a content. *)
Definition shown_piece (colorMap : gmap str str) (p : piece) : piece :=
  match p with
  | Text _ => p
  | Clr n c => if nonempty n && nonempty c then Text (rendered colorMap p) else p
  end.

(** What holds of every term of the list: a name that is not empty and has
    no [}], a colour that is not empty. *)
Definition term_ok (t : Term) : Prop :=
  nonempty (name t) = true /\ no_char "}" (name t) = true /\ nonempty (color t) = true.


(** * Properties *)

#[local] Arguments Ascii.eqb : simpl never.

(** From a boolean test that holds on [c :: s] to its two halves: the
    negated test on the head, as an equation, and the test on the tail. *)
Tactic Notation "head_tail" hyp(H) ident(Hc) simple_intropattern(Hs) :=
  apply andb_prop in H as [Hc Hs]; apply negb_true_iff in Hc.

(** ** Prefixes and runs of characters *)

Lemma strip_prefix_app (p s : str) : strip_prefix p (p ++ s) = Some s.
Proof.
  induction p as [|a p IH]; simpl; [reflexivity|].
  now rewrite Ascii.eqb_refl.
Qed.

Lemma strip_prefix_spec (p s s' : str) : strip_prefix p s = Some s' -> s = p ++ s'.
Proof.
  revert s. induction p as [|a p IH]; intros [|c s]; simpl; intros H; simplify_eq; auto.
  destruct (Ascii.eqb a c) eqn:E; [|discriminate].
  apply Ascii.eqb_eq in E. subst c. f_equal. auto.
Qed.

Lemma strip_prefix_common (p x y : str) :
  strip_prefix (p ++ x) (p ++ y) = strip_prefix x y.
Proof. induction p as [|a p IH]; simpl; [reflexivity|]. now rewrite Ascii.eqb_refl. Qed.

(** A prefix [k] of [p ++ y] either lies within [p] or goes past it. *)
Lemma strip_prefix_split (k p y : str) :
  strip_prefix k (p ++ y) =
  match strip_prefix k p with
  | Some p' => Some (p' ++ y)
  | None =>
    match strip_prefix p k with
    | Some k' => strip_prefix k' y
    | None => None
    end
  end.
Proof.
  revert p. induction k as [|a k IH]; intros p; [reflexivity|].
  destruct p as [|c p]; [reflexivity|].
  cbn [app strip_prefix]. rewrite (Ascii.eqb_sym c a).
  destruct (Ascii.eqb a c); [apply IH|reflexivity].
Qed.

Lemma strip_prefix_app_l (u v p y : str) :
  strip_prefix (u ++ v) p = Some y -> exists z, strip_prefix u p = Some z.
Proof.
  revert p. induction u as [|c u IH]; intros p H.
  - now exists p.
  - destruct p as [|a p]; [discriminate|].
    cbn [app strip_prefix] in *. destruct (Ascii.eqb c a); [now apply IH|discriminate].
Qed.

Lemma no_char_app x (u v : str) :
  no_char x (u ++ v) = no_char x u && no_char x v.
Proof. apply forallb_app. Qed.

Lemma until_close_spec (s : str) :
  forall u t, until_close s = (u, t) ->
  s = u ++ t /\ no_char "}" u = true /\ (t = [] \/ exists t', t = "}" :: t').
Proof.
  induction s as [|c s IH]; simpl; intros u t H.
  - simplify_eq. auto.
  - destruct (Ascii.eqb "}" c) eqn:E.
    + simplify_eq. apply Ascii.eqb_eq in E. subst c.
      repeat split; eauto.
    + destruct (until_close s) as [u' t'] eqn:U. simplify_eq.
      destruct (IH _ _ eq_refl) as (-> & Hu & Ht).
      repeat split; auto. simpl. now rewrite E.
Qed.

Lemma until_close_head (s u t : str) x :
  until_close s = (u, x :: t) -> x = "}".
Proof.
  intros H. destruct (until_close_spec _ _ _ H) as (_ & _ & [?|[t' ?]]); congruence.
Qed.

Lemma until_close_app (u t : str) :
  no_char "}" u = true -> until_close (u ++ "}" :: t) = (u, "}" :: t).
Proof.
  induction u as [|c u IH]; simpl; intros H.
  - reflexivity.
  - head_tail H Hc Hu.
    rewrite Hc, (IH Hu). reflexivity.
Qed.

(** What follows a text with a closing brace does not change its run. *)
Lemma until_close_app_l (p y u t : str) x :
  until_close p = (u, x :: t) -> until_close (p ++ y) = (u, x :: t ++ y).
Proof.
  revert u. induction p as [|c p IH]; intros u H; [discriminate|].
  cbn [app until_close] in *. destruct (Ascii.eqb "}" c).
  - now simplify_eq.
  - destruct (until_close p) as [u' t'] eqn:U. simplify_eq.
    now rewrite (IH _ eq_refl).
Qed.

Lemma until_close_app_r (p y u : str) :
  until_close p = (u, []) ->
  until_close (p ++ y) = (p ++ fst (until_close y), snd (until_close y)).
Proof.
  revert u. induction p as [|c p IH]; intros u H.
  - simpl. now destruct (until_close y).
  - cbn [app until_close] in *. destruct (Ascii.eqb "}" c); [discriminate|].
    destruct (until_close p) as [u' t'] eqn:U. simplify_eq.
    now rewrite (IH _ eq_refl).
Qed.

Lemma plain_cons c N : plain (c :: N) = true -> is_syntax_char c = false /\ plain N = true.
Proof.
  unfold plain. simpl. intros H. apply andb_prop in H as [H1 H2].
  now apply negb_true_iff in H1.
Qed.

(** A plain name has none of the syntax characters. *)
Lemma plain_no_char x N :
  is_syntax_char x = true -> plain N = true -> no_char x N = true.
Proof.
  intros Hx. induction N as [|c N IH]; intros H; [reflexivity|].
  apply plain_cons in H as [Hc HN]. simpl. rewrite (IH HN), andb_true_r.
  apply negb_true_iff, Ascii.eqb_neq. intros ->. congruence.
Qed.

Lemma strip_prefix_name (N n x y : str) :
  no_char "}" N = true -> no_char "}" n = true ->
  strip_prefix (N ++ "}" :: x) (n ++ "}" :: y)
  = if decide (n = N) then strip_prefix x y else None.
Proof.
  revert n. induction N as [|a N IH]; intros [|c n] HN Hn;
    cbn [app strip_prefix no_char forallb] in *.
  - destruct (decide ([] = [])); [reflexivity|done].
  - head_tail Hn Hc _. rewrite Hc.
    destruct (decide (c :: n = [])); [done|reflexivity].
  - head_tail HN Ha _.
    rewrite Ascii.eqb_sym, Ha.
    destruct (decide ([] = a :: N)); [done|reflexivity].
  - apply andb_prop in HN as [_ HN]. apply andb_prop in Hn as [_ Hn].
    destruct (Ascii.eqb a c) eqn:E.
    + apply Ascii.eqb_eq in E. subst c. rewrite (IH n HN Hn).
      destruct (decide (n = N)) as [Hn'|Hn'], (decide (a :: n = a :: N)) as [E|E];
        try reflexivity; congruence.
    + apply Ascii.eqb_neq in E.
      destruct (decide (c :: n = a :: N)); [congruence|reflexivity].
Qed.

(** ** The matcher on the patterns of the editor *)

(** The greedy [[^}]+] followed by something that needs a closing brace
    stops at the first closing brace: giving characters back never helps. *)
Lemma star_until_close {R : Type} (k : bool -> str -> option R) :
  (forall b c t, Ascii.eqb "}" c = false -> k b (c :: t) = None) ->
  (forall b, k b [] = None) ->
  forall s b,
    star (CNot "}") k b s =
    let '(u, t) := until_close s in
    match t with
    | [] => None
    | _ :: _ => k (match u with [] => b | _ :: _ => false end) t
    end.
Proof.
  intros Hk Hnil s. induction s as [|c s IH]; intros b; simpl.
  - apply Hnil.
  - destruct (Ascii.eqb "}" c) eqn:E; simpl.
    + reflexivity.
    + rewrite IH. destruct (until_close s) as [u t] eqn:U.
      destruct t as [|c' t].
      * now rewrite Hk.
      * destruct u; destruct (k false (c' :: t)) eqn:K; auto.
        all: now rewrite Hk.
Qed.

Lemma exec_lits (p : str) (r : regex) b g caps s :
  exec (lits p ++ r) b g caps s =
  match strip_prefix p s with
  | Some s' => exec r (match p with [] => b | _ :: _ => false end) g caps s'
  | None => None
  end.
Proof.
  revert b s. induction p as [|a p IH]; intros b s; simpl; [reflexivity|].
  destruct s as [|c s]; [reflexivity|].
  destruct (Ascii.eqb a c); [|reflexivity].
  rewrite IH. destruct (strip_prefix p s); [|reflexivity]. now destruct p.
Qed.

(** [[^}]+\}] and [([^}]+)\}]: the run up to the first closing brace, which
    must not be empty. *)
Lemma exec_run (r : regex) b g caps s :
  exec (Atom (CNot "}") Plus :: Atom (CChar "}") One :: r) b g caps s =
  match until_close s with
  | (_ :: _, _ :: rest) => exec r false g caps rest
  | _ => None
  end.
Proof.
  destruct s as [|c s]; simpl; [reflexivity|].
  destruct (Ascii.eqb "}" c) eqn:E; simpl; [reflexivity|].
  rewrite star_until_close.
  - destruct (until_close s) as [u t] eqn:U.
    destruct (until_close_spec _ _ _ U) as (_ & _ & [-> | [t' ->]]); [reflexivity|].
    simpl. now destruct u.
  - intros b' c' t' E'. simpl. now rewrite E'.
  - reflexivity.
Qed.

Lemma exec_group_run (r : regex) b caps s :
  exec (GOpen :: Atom (CNot "}") Plus :: GClose :: Atom (CChar "}") One :: r) b None caps s =
  match until_close s with
  | (c0 :: u, _ :: rest) => exec r false None (caps ++ [c0 :: u]) rest
  | _ => None
  end.
Proof.
  destruct s as [|c s]; simpl; [reflexivity|].
  destruct (Ascii.eqb "}" c) eqn:E; simpl; [reflexivity|].
  rewrite star_until_close.
  - destruct (until_close s) as [u t] eqn:U.
    destruct (until_close_spec _ _ _ U) as (-> & _ & [-> | [t' ->]]); [reflexivity|].
    assert (L : S (length (u ++ "}" :: t')) - length ("}" :: t') = S (length u)).
    { rewrite length_app. simpl. lia. }
    assert (F : firstn (S (length u)) (c :: u ++ "}" :: t') = c :: u).
    { simpl. f_equal. rewrite firstn_app, Nat.sub_diag, firstn_all. simpl.
      apply app_nil_r. }
    rewrite L, F. reflexivity.
  - intros b' c' t' E'. simpl. now rewrite E'.
  - reflexivity.
Qed.

(** *** The pattern of [parseTermsFromLatex] *)

Lemma clr_regex_source : compile clr_source = Some clr_regex.
Proof. reflexivity. Qed.

Lemma exec_clr b s :
  exec clr_regex b None [] s =
  match strip_prefix opener s with
  | Some s1 =>
    match until_close s1 with
    | (n0 :: n, _ :: s2) =>
      match strip_prefix (lit "{") s2 with
      | Some s3 =>
        match until_close s3 with
        | (c0 :: c, _ :: rest) => Some ([n0 :: n; c0 :: c], rest)
        | _ => None
        end
      | None => None
      end
    | _ => None
    end
  | None => None
  end.
Proof.
  change clr_regex with
    (lits opener
     ++ GOpen :: Atom (CNot "}") Plus :: GClose :: Atom (CChar "}") One
     :: (lits (lit "{")
     ++ GOpen :: Atom (CNot "}") Plus :: GClose :: Atom (CChar "}") One :: [])).
  rewrite exec_lits. destruct (strip_prefix opener s) as [s1|]; [|reflexivity].
  rewrite exec_group_run.
  destruct (until_close s1) as [[|n0 n] [|x s2]]; try reflexivity.
  rewrite exec_lits. destruct (strip_prefix (lit "{") s2) as [s3|]; [|reflexivity].
  rewrite exec_group_run.
  destruct (until_close s3) as [[|c0 c] [|y rest]]; reflexivity.
Qed.

Lemma annotation_app (n c rest : str) :
  annotation n c ++ rest = opener ++ n ++ "}" :: "{" :: c ++ "}" :: rest.
Proof. unfold annotation. now rewrite <- !app_assoc. Qed.

(** A match of the pattern is an annotation with a non-empty name and a
    non-empty content, both without a closing brace. *)
Lemma exec_clr_inv b s caps rest :
  exec clr_regex b None [] s = Some (caps, rest) ->
  exists n c, caps = [n; c] /\ s = annotation n c ++ rest
              /\ n <> [] /\ c <> [] /\ no_char "}" n = true /\ no_char "}" c = true.
Proof.
  rewrite exec_clr. intros H.
  destruct (strip_prefix opener s) as [s1|] eqn:P1; [|discriminate].
  destruct (until_close s1) as [[|n0 n] [|x s2]] eqn:U1; try discriminate.
  destruct (strip_prefix (lit "{") s2) as [s3|] eqn:P2; [|discriminate].
  destruct (until_close s3) as [[|c0 c] [|y rest']] eqn:U2; try discriminate.
  simplify_eq.
  pose proof (until_close_head _ _ _ _ U1). pose proof (until_close_head _ _ _ _ U2).
  subst x y.
  apply strip_prefix_spec in P1, P2.
  destruct (until_close_spec _ _ _ U1) as (E1 & N1 & _).
  destruct (until_close_spec _ _ _ U2) as (E2 & N2 & _).
  exists (n0 :: n), (c0 :: c). rewrite annotation_app.
  repeat split; try done.
  now rewrite P1, E1, P2, E2.
Qed.

Lemma exec_clr_annotation b n c rest :
  no_char "}" n = true -> no_char "}" c = true ->
  exec clr_regex b None [] (annotation n c ++ rest)
  = match hit_all n c with Some caps => Some (caps, rest) | None => None end.
Proof.
  intros Nn Nc.
  rewrite exec_clr, annotation_app, strip_prefix_app, (until_close_app _ _ Nn).
  destruct n as [|n0 n]; [reflexivity|]. cbn beta iota.
  change (strip_prefix (lit "{") ("{" :: c ++ "}" :: rest)) with (Some (c ++ "}" :: rest)).
  cbn beta iota. rewrite (until_close_app _ _ Nc). now destruct c.
Qed.

(** *** The patterns built from a term name *)

Lemma parse_plain_char c g acc t :
  is_syntax_char c = false ->
  parse g acc (c :: t) = parse g (Atom (CChar c) One :: acc) t.
Proof.
  intros Hs. pose proof Hs as H. unfold is_syntax_char in H.
  cbn [existsb lit list_ascii_of_string] in H.
  repeat (apply orb_false_elim in H as [? H]).
  cbn [parse].
  repeat match goal with E : Ascii.eqb c _ = false |- _ => rewrite E; clear E end.
  now rewrite Hs.
Qed.

Lemma parse_plain N :
  plain N = true ->
  forall g acc t, parse g acc (N ++ t) = parse g (rev (lits N) ++ acc) t.
Proof.
  induction N as [|c N IH]; intros H g acc t; [reflexivity|].
  apply plain_cons in H as [Hc HN].
  simpl app. rewrite parse_plain_char, IH by assumption.
  simpl. now rewrite <- app_assoc.
Qed.

Lemma update_regex_opener N : starts_with_opener (update_regex N).
Proof.
  eexists. unfold update_regex, key, lits. rewrite map_app, <- app_assoc. reflexivity.
Qed.

Lemma remove_regex_opener N : starts_with_opener (remove_regex N).
Proof.
  eexists. unfold remove_regex, key, lits. rewrite map_app, <- app_assoc. reflexivity.
Qed.

Lemma clr_regex_opener : starts_with_opener clr_regex.
Proof. eexists. reflexivity. Qed.

Create HintDb markup.
#[local] Hint Resolve update_regex_opener remove_regex_opener clr_regex_opener : markup.

(** Whether the first character of a match is at index 0 does not matter. *)
Lemma exec_update_bol N b b' g caps s :
  exec (update_regex N) b g caps s = exec (update_regex N) b' g caps s.
Proof. unfold update_regex, key. now rewrite !exec_lits. Qed.

(** A match of the pattern of a name is an annotation of that name. *)
Lemma exec_update_inv N b s caps rest :
  exec (update_regex N) b None [] s = Some (caps, rest) ->
  exists c, s = annotation N c ++ rest /\ c <> [] /\ no_char "}" c = true.
Proof.
  unfold update_regex. rewrite exec_lits. intros H.
  destruct (strip_prefix (key N) s) as [s'|] eqn:P; [|discriminate].
  rewrite exec_run in H.
  destruct (until_close s') as [[|c0 c] [|x rest']] eqn:U; try discriminate.
  simpl in H. simplify_eq.
  pose proof (until_close_head _ _ _ _ U). subst x.
  apply strip_prefix_spec in P. destruct (until_close_spec _ _ _ U) as (E & Nc & _).
  exists (c0 :: c). repeat split; try done.
  rewrite P, E. unfold annotation, key. now rewrite <- !app_assoc.
Qed.

Lemma exec_remove_inv N b s caps rest :
  exec (remove_regex N) b None [] s = Some (caps, rest) ->
  exists c, s = annotation N c ++ rest /\ c <> [] /\ no_char "}" c = true.
Proof.
  unfold remove_regex. rewrite exec_lits. intros H.
  destruct (strip_prefix (key N) s) as [s'|] eqn:P; [|discriminate].
  rewrite exec_group_run in H.
  destruct (until_close s') as [[|c0 c] [|x rest']] eqn:U; try discriminate.
  simpl in H. simplify_eq.
  pose proof (until_close_head _ _ _ _ U). subst x.
  apply strip_prefix_spec in P. destruct (until_close_spec _ _ _ U) as (E & Nc & _).
  exists (c0 :: c). repeat split; try done.
  rewrite P, E. unfold annotation, key. now rewrite <- !app_assoc.
Qed.

Lemma occurs_spec N v :
  occurs N v =
  match strip_prefix (key N) v with
  | Some w =>
    match until_close w with
    | (_ :: _, _ :: _) => true
    | _ => false
    end
  | None => false
  end.
Proof.
  unfold occurs, update_regex. rewrite exec_lits.
  destruct (strip_prefix (key N) v) as [w|]; [|reflexivity].
  rewrite exec_run. now destruct (until_close w) as [[|? ?] [|? ?]].
Qed.

Section PlainName.
Variable N : str.
Hypothesis HN : plain N = true.

Lemma compile_update :
  compile (lit "\\clr\{" ++ N ++ lit "\}\{[^}]+\}") = Some (update_regex N).
Proof.
  unfold compile.
  change (parse false [] (lit "\\clr\{" ++ N ++ lit "\}\{[^}]+\}"))
    with (parse false (rev (lits opener)) (N ++ lit "\}\{[^}]+\}")).
  rewrite parse_plain by assumption.
  set (acc := rev (lits N) ++ rev (lits opener)).
  change (parse false acc (lit "\}\{[^}]+\}"))
    with (Some (rev (Atom (CChar "}") One :: Atom (CNot "}") Plus
                     :: rev (lits (lit "}{")) ++ acc))).
  f_equal. subst acc. unfold update_regex, key, lits.
  simpl rev. rewrite !rev_app_distr, !rev_involutive, !map_app.
  simpl. now rewrite <- !app_assoc.
Qed.

Lemma compile_remove :
  compile (lit "\\clr\{" ++ N ++ lit "\}\{([^}]+)\}") = Some (remove_regex N).
Proof.
  unfold compile.
  change (parse false [] (lit "\\clr\{" ++ N ++ lit "\}\{([^}]+)\}"))
    with (parse false (rev (lits opener)) (N ++ lit "\}\{([^}]+)\}")).
  rewrite parse_plain by assumption.
  set (acc := rev (lits N) ++ rev (lits opener)).
  change (parse false acc (lit "\}\{([^}]+)\}"))
    with (Some (rev (Atom (CChar "}") One :: GClose :: Atom (CNot "}") Plus :: GOpen
                     :: rev (lits (lit "}{")) ++ acc))).
  f_equal. subst acc. unfold remove_regex, key, lits.
  simpl rev. rewrite !rev_app_distr, !rev_involutive, !map_app.
  simpl. now rewrite <- !app_assoc.
Qed.

Lemma strip_prefix_key (n c rest : str) :
  no_char "}" n = true ->
  strip_prefix (key N) (annotation n c ++ rest)
  = if decide (n = N) then Some (c ++ "}" :: rest) else None.
Proof.
  intros Hn. unfold key. rewrite annotation_app, strip_prefix_common.
  change (N ++ lit "}{") with (N ++ "}" :: lit "{").
  rewrite strip_prefix_name; [|now apply plain_no_char|assumption].
  destruct (decide (n = N)); reflexivity.
Qed.

Lemma exec_update_annotation b n c rest :
  no_char "}" n = true -> no_char "}" c = true ->
  exec (update_regex N) b None [] (annotation n c ++ rest)
  = match hit_update N n c with Some caps => Some (caps, rest) | None => None end.
Proof.
  intros Nn Nc. unfold update_regex, hit_update.
  rewrite exec_lits, strip_prefix_key by assumption.
  destruct (decide (n = N)); [|reflexivity].
  rewrite exec_run, until_close_app by assumption. now destruct c.
Qed.

Lemma exec_remove_annotation b n c rest :
  no_char "}" n = true -> no_char "}" c = true ->
  exec (remove_regex N) b None [] (annotation n c ++ rest)
  = match hit_remove N n c with Some caps => Some (caps, rest) | None => None end.
Proof.
  intros Nn Nc. unfold remove_regex, hit_remove.
  rewrite exec_lits, strip_prefix_key by assumption.
  destruct (decide (n = N)); [|reflexivity].
  rewrite exec_group_run, until_close_app by assumption. now destruct c.
Qed.

Lemma until_close_annotation (c z : str) :
  until_close (annotation N c ++ z) = (opener ++ N, "}" :: "{" :: c ++ "}" :: z).
Proof.
  rewrite annotation_app, app_assoc. apply until_close_app.
  rewrite no_char_app. now rewrite (plain_no_char "}" N).
Qed.

End PlainName.

(** ** The scan *)

Lemma scan_skip r (u rest : str) :
  forall pos, scan r (length u) pos (u ++ rest) = scan r 0 (pos + length u) rest.
Proof.
  induction u as [|c u IH]; intros pos; simpl.
  - now rewrite Nat.add_0_r.
  - rewrite IH. f_equal. lia.
Qed.

(** A match at the current index: one token, and the scan resumes after it. *)
Lemma scan_hit r pos (m rest : str) caps :
  exec r (Nat.eqb pos 0) None [] (m ++ rest) = Some (caps, rest) ->
  m <> [] ->
  scan r 0 pos (m ++ rest)
  = Hit {| index := pos; matched := m; groups := caps |}
    :: scan r 0 (pos + length m) rest.
Proof.
  intros H Hm. destruct m as [|c m]; [done|].
  simpl app in *. cbn [scan]. rewrite H.
  assert (L : length (c :: m ++ rest) - length rest = S (length m)).
  { simpl. rewrite length_app. lia. }
  rewrite L. cbn [firstn]. rewrite firstn_app, Nat.sub_diag, firstn_all, scan_skip.
  simpl. rewrite app_nil_r. do 2 f_equal. lia.
Qed.

(** Where the pattern matches nowhere, every character is kept. *)
Lemma scan_none r (s : str) :
  (forall b u v, s = u ++ v -> exec r b None [] v = None) ->
  forall pos, scan r 0 pos s = map Skip s.
Proof.
  induction s as [|c s IH]; intros H pos; cbn [scan map].
  - now rewrite (H _ [] []).
  - rewrite (H _ [] (c :: s)) by reflexivity. f_equal. apply IH.
    intros b u v ->. now apply (H b (c :: u) v).
Qed.

(** Where the scan reports a match, the pattern matches. *)
Lemma scan_hit_exec r (s : str) :
  forall k pos m,
    Hit m ∈ scan r k pos s ->
    pos <= index m
    /\ exists rest, exec r (Nat.eqb (index m) 0) None [] (skipn (index m - pos) s)
                    = Some (groups m, rest).
Proof.
  induction s as [|c s IH]; intros k pos m H.
  - cbn [scan] in H. destruct k; [|now apply not_elem_of_nil in H].
    destruct (exec r (Nat.eqb pos 0) None [] []) as [[caps rest]|] eqn:E;
      [|now apply not_elem_of_nil in H].
    apply list_elem_of_singleton in H. simplify_eq. cbn [index groups].
    split; [lia|]. rewrite Nat.sub_diag. now exists rest.
  - assert (Hrec : forall k', Hit m ∈ scan r k' (S pos) s ->
              pos <= index m
              /\ exists rest, exec r (Nat.eqb (index m) 0) None []
                                (skipn (index m - pos) (c :: s)) = Some (groups m, rest)).
    { intros k' Hk'. destruct (IH _ _ _ Hk') as (Hle & rest & E).
      split; [lia|]. exists rest.
      replace (index m - pos) with (S (index m - S pos)) by lia. exact E. }
    cbn [scan] in H. destruct k as [|k]; [|now apply (Hrec k)].
    destruct (exec r (Nat.eqb pos 0) None [] (c :: s)) as [[caps rest]|] eqn:E.
    + apply elem_of_cons in H as [H|H].
      * simplify_eq. cbn [index groups]. split; [lia|].
        rewrite Nat.sub_diag. now exists rest.
      * destruct (length (c :: s) - length rest) as [|j]; [|now apply (Hrec j)].
        apply elem_of_cons in H as [H|H]; [discriminate|]. now apply (Hrec 0).
    + apply elem_of_cons in H as [H|H]; [discriminate|]. now apply (Hrec 0).
Qed.

Lemma hits_app ts1 ts2 : hits (ts1 ++ ts2) = hits ts1 ++ hits ts2.
Proof.
  induction ts1 as [|[c|m] ts1 IH]; simpl; [reflexivity|assumption|now rewrite IH].
Qed.

Lemma hits_skip (t : str) : hits (map Skip t) = [].
Proof. induction t; simpl; auto. Qed.

Lemma hits_elem m ts : m ∈ hits ts -> Hit m ∈ ts.
Proof.
  induction ts as [|[c|m'] ts IH]; cbn [hits]; intros H.
  - now apply not_elem_of_nil in H.
  - apply list_elem_of_further. auto.
  - apply elem_of_cons in H as [->|H]; [apply list_elem_of_here|].
    apply list_elem_of_further. auto.
Qed.

Lemma concat_map_skip (f : MatchResult -> str) (t : str) :
  concat (map (fun k => match k with Skip c => [c] | Hit m => f m end) (map Skip t)) = t.
Proof. induction t as [|c t IH]; simpl; [reflexivity|]. now rewrite IH. Qed.

Lemma replace_none r tpl (s : str) :
  (forall b u v, s = u ++ v -> exec r b None [] v = None) ->
  replace_str r tpl s = s.
Proof.
  intros H. unfold replace_str, tokens. rewrite (scan_none _ _ H).
  apply concat_map_skip.
Qed.

(** A replacement string without a dollar sign is inserted as it is. *)
Lemma expand_plain input m tpl :
  no_char "$" tpl = true -> expand input m tpl = tpl.
Proof.
  induction tpl as [|c t IH]; intros H; [reflexivity|].
  simpl in H. head_tail H Hc Ht.
  cbn [expand]. rewrite Ascii.eqb_sym, Hc, IH by assumption. reflexivity.
Qed.

(** *** Calm texts *)

Lemma clash_false_opener (u rest : str) :
  clash u = false -> strip_prefix opener (u ++ rest) = None.
Proof.
  unfold clash. intros H. rewrite strip_prefix_split.
  destruct (strip_prefix opener u); [discriminate|].
  now destruct (strip_prefix u opener).
Qed.

Lemma clash_app (u v : str) : clash u = false -> clash (u ++ v) = false.
Proof.
  intros H. unfold clash. rewrite (clash_false_opener _ _ H).
  destruct (strip_prefix (u ++ v) opener) as [y|] eqn:E; [|reflexivity].
  apply strip_prefix_app_l in E as [z E]. unfold clash in H. rewrite E in H.
  now destruct (strip_prefix opener u).
Qed.

Lemma calm_app (u v : str) : calm u = true -> calm v = true -> calm (u ++ v) = true.
Proof.
  intros Hu Hv. induction u as [|c u IH]; [assumption|].
  cbn [calm] in Hu. head_tail Hu Hc Hu.
  change ((c :: u) ++ v) with (c :: (u ++ v)). cbn [calm].
  change (c :: (u ++ v)) with ((c :: u) ++ v).
  rewrite (clash_app _ _ Hc), (IH Hu). reflexivity.
Qed.

Lemma no_backslash_calm (s : str) : no_char "\" s = true -> calm s = true.
Proof.
  induction s as [|c s IH]; intros H; [reflexivity|].
  cbn [no_char forallb] in H. head_tail H Hc Hs.
  cbn [calm]. rewrite (IH Hs), andb_true_r. apply negb_true_iff.
  unfold clash, opener. cbn [lit list_ascii_of_string strip_prefix].
  now rewrite Hc, Ascii.eqb_sym, Hc.
Qed.

(** After its first character, an annotation with a calm name and a calm
    content is calm. *)
Lemma annotation_tail n c :
  calm n = true -> calm c = true ->
  exists tl, annotation n c = "\" :: tl /\ calm tl = true.
Proof.
  intros Hn Hc. exists (lit "clr{" ++ n ++ lit "}{" ++ c ++ lit "}").
  split; [reflexivity|].
  repeat apply calm_app; try assumption; reflexivity.
Qed.

Lemma wf_clr n c :
  wf_piece (Clr n c) = true ->
  no_char "}" n = true /\ no_char "}" c = true /\ calm n = true /\ calm c = true.
Proof.
  simpl. rewrite !andb_true_iff. tauto.
Qed.

(** *** The scan of flat pieces *)

Section OpenerScan.
Variable r : regex.
Hypothesis Hr : starts_with_opener r.

Lemma exec_opener_nil b g caps : exec r b g caps [] = None.
Proof. destruct Hr as [r' ->]. reflexivity. Qed.

Lemma exec_opener_miss b g caps (u rest : str) :
  clash u = false -> exec r b g caps (u ++ rest) = None.
Proof.
  destruct Hr as [r' ->]. intros H. now rewrite exec_lits, clash_false_opener.
Qed.

Lemma scan_nil pos : scan r 0 pos [] = [].
Proof. simpl. now rewrite exec_opener_nil. Qed.

(** No match starts in a calm text, whatever follows it. *)
Lemma scan_text pos (t rest : str) :
  calm t = true ->
  scan r 0 pos (t ++ rest) = map Skip t ++ scan r 0 (pos + length t) rest.
Proof.
  revert pos. induction t as [|c t IH]; intros pos H.
  - simpl. now rewrite Nat.add_0_r.
  - cbn [calm] in H. head_tail H Hc Ht.
    pose proof (exec_opener_miss (Nat.eqb pos 0) None [] _ rest Hc) as E.
    simpl app in *. cbn [scan]. rewrite E, IH by assumption.
    simpl. do 3 f_equal. lia.
Qed.

(** The scan of flat pieces by a pattern that, on an annotation, either
    matches it whole or not at all. *)
Lemma scan_pieces (hit : str -> str -> option (list str)) :
  (forall b n c rest,
      no_char "}" n = true -> no_char "}" c = true ->
      exec r b None [] (annotation n c ++ rest)
      = match hit n c with Some caps => Some (caps, rest) | None => None end) ->
  forall ps pos,
    flat ps = true ->
    scan r 0 pos (unparse ps) = piece_tokens hit pos ps.
Proof.
  intros Hhit ps. induction ps as [|p ps IH]; intros pos Hf.
  - apply scan_nil.
  - simpl in Hf. apply andb_prop in Hf as [Hp Hps].
    change (unparse (p :: ps)) with (piece_text p ++ unparse ps).
    cbn [piece_tokens]. destruct p as [t|n c]; cbn [piece_text].
    + rewrite scan_text, IH by assumption. reflexivity.
    + destruct (wf_clr _ _ Hp) as (Nn & Nc & Bn & Bc).
      pose proof (Hhit (Nat.eqb pos 0) n c (unparse ps) Nn Nc) as E.
      destruct (hit n c) as [caps|].
      * rewrite (scan_hit _ _ _ _ _ E), IH by done. reflexivity.
      * destruct (annotation_tail n c Bn Bc) as (tl & Etl & Htl).
        rewrite Etl in *. simpl app in *. cbn [scan]. rewrite E.
        rewrite scan_text, IH by assumption. simpl. do 3 f_equal. lia.
Qed.

End OpenerScan.

(** ** The edits on flat markup *)

(** Rebuilding the text from the tokens of flat pieces, a replacement put in
    place of every match. *)
Lemma render_pieces (f : MatchResult -> str) hit (g : piece -> piece) :
  (forall t, g (Text t) = Text t) ->
  (forall pos n c,
      match hit n c with
      | Some caps =>
        f {| index := pos; matched := annotation n c; groups := caps |}
        = piece_text (g (Clr n c))
      | None => g (Clr n c) = Clr n c
      end) ->
  forall ps pos,
    concat (map (fun k => match k with Skip c => [c] | Hit m => f m end)
                (piece_tokens hit pos ps))
    = unparse (map g ps).
Proof.
  intros Ht Hc ps. induction ps as [|p ps IH]; intros pos; [reflexivity|].
  cbn [piece_tokens map]. rewrite map_app, concat_app, IH.
  change (unparse (g p :: map g ps)) with (piece_text (g p) ++ unparse (map g ps)).
  f_equal. destruct p as [t|n c].
  - rewrite Ht. apply concat_map_skip.
  - specialize (Hc pos n c). destruct (hit n c).
    + simpl. now rewrite app_nil_r.
    + rewrite Hc. apply concat_map_skip.
Qed.

Section FlatEdits.
Variable N : str.
Hypothesis HN : plain N = true.

(** [handleUpdateTerm] on flat markup: the content of the annotations named
    [N] is replaced, everything else stays in place. *)
Lemma update_flat (ps : list piece) (c' : str) :
  flat ps = true -> no_char "$" c' = true ->
  updateTermLatex N c' (unparse ps) = Some (unparse (map (set_content N c') ps)).
Proof.
  intros Hf Hc. unfold updateTermLatex. rewrite compile_update by assumption.
  f_equal. unfold replace_str, tokens.
  rewrite (scan_pieces _ (update_regex_opener N) (hit_update N));
    [|intros; now apply exec_update_annotation|assumption].
  apply render_pieces; [reflexivity|].
  intros pos n c. unfold hit_update, set_content.
  destruct (decide (n = N)) as [->|]; [|reflexivity].
  destruct (nonempty c); [|reflexivity].
  rewrite expand_plain; [reflexivity|].
  rewrite !no_char_app, Hc, (plain_no_char "$" N) by done. reflexivity.
Qed.

(** [handleRemoveTerm] on flat markup: the annotations named [N] are replaced
    by their content, everything else stays in place. *)
Lemma remove_flat (ps : list piece) :
  flat ps = true ->
  removeTermLatex N (unparse ps) = Some (unparse (map (strip N) ps)).
Proof.
  intros Hf. unfold removeTermLatex. rewrite compile_remove by assumption.
  f_equal. unfold replace_str, tokens.
  rewrite (scan_pieces _ (remove_regex_opener N) (hit_remove N));
    [|intros; now apply exec_remove_annotation|assumption].
  apply render_pieces; [reflexivity|].
  intros pos n c. unfold hit_remove, strip.
  destruct (decide (n = N)) as [->|]; [|reflexivity].
  destruct (nonempty c); [|reflexivity].
  simpl. apply app_nil_r.
Qed.

(** The two edits leave a markup without annotation named [N] as it is,
    flat or not. *)
Lemma unknown_plain_name_noop (M c' : str) :
  (forall u c rest, c <> [] -> no_char "}" c = true -> M <> u ++ annotation N c ++ rest) ->
  updateTermLatex N c' M = Some M /\ removeTermLatex N M = Some M.
Proof.
  intros Hno. unfold updateTermLatex, removeTermLatex.
  rewrite compile_update, compile_remove by assumption. split; f_equal.
  - apply replace_none. intros b u v ->.
    destruct (exec (update_regex N) b None [] v) as [[caps rest]|] eqn:X; [|reflexivity].
    apply exec_update_inv in X as (c & -> & Hc & Nc). now destruct (Hno u c rest).
  - apply replace_none. intros b u v ->.
    destruct (exec (remove_regex N) b None [] v) as [[caps rest]|] eqn:X; [|reflexivity].
    apply exec_remove_inv in X as (c & -> & Hc & Nc). now destruct (Hno u c rest).
Qed.

End FlatEdits.

Lemma flat_strip ps N : flat ps = true -> flat (map (strip N) ps) = true.
Proof.
  induction ps as [|p ps IH]; intros H; [reflexivity|].
  simpl in H. apply andb_prop in H as [Hp Hps].
  cbn [map flat forallb]. fold (flat (map (strip N) ps)). rewrite (IH Hps), andb_true_r.
  destruct p as [t|n c]; [assumption|]. unfold strip.
  destruct (decide (n = N)); [|assumption].
  destruct (nonempty c); [|assumption].
  now destruct (wf_clr _ _ Hp) as (_ & _ & _ & ?).
Qed.

Lemma annotations_strip ps N :
  annotations (map (strip N) ps) = filter (fun a => a.1 <> N) (annotations ps).
Proof.
  induction ps as [|[t|n c] ps IH]; cbn [map annotations strip].
  - reflexivity.
  - assumption.
  - destruct (decide (n = N)) as [->|Hn].
    + destruct c as [|c0 c]; cbn [nonempty annotations].
      * rewrite andb_false_r. assumption.
      * destruct (nonempty N); cbn [andb]; [|assumption].
        rewrite filter_cons_False by (simpl; auto). assumption.
    + cbn [annotations]. destruct (nonempty n && nonempty c); [|assumption].
      rewrite filter_cons_True by done. now rewrite IH.
Qed.

Lemma strip_strip N p : strip N (strip N p) = strip N p.
Proof.
  destruct p as [t|n c]; [reflexivity|]. cbn [strip].
  destruct (decide (n = N)) as [->|Hn].
  - destruct (nonempty c) eqn:E; [reflexivity|].
    cbn [strip]. rewrite decide_True by done. now rewrite E.
  - cbn [strip]. now rewrite decide_False.
Qed.

Lemma unparse_app ps qs : unparse (ps ++ qs) = unparse ps ++ unparse qs.
Proof. unfold unparse. now rewrite map_app, concat_app. Qed.

Lemma annotations_app ps qs : annotations (ps ++ qs) = annotations ps ++ annotations qs.
Proof.
  induction ps as [|[t|n c] ps IH]; cbn [app annotations]; [reflexivity|assumption|].
  destruct (nonempty n && nonempty c); [|assumption]. now rewrite IH.
Qed.

Lemma flat_app ps qs : flat (ps ++ qs) = flat ps && flat qs.
Proof. apply forallb_app. Qed.

Lemma annotations_elem ps n c :
  (n, c) ∈ annotations ps -> Clr n c ∈ ps /\ nonempty n = true /\ nonempty c = true.
Proof.
  induction ps as [|[t|n' c'] ps IH]; cbn [annotations]; intros H.
  - now apply not_elem_of_nil in H.
  - destruct (IH H) as (? & ? & ?). repeat split; try assumption.
    now apply list_elem_of_further.
  - destruct (nonempty n' && nonempty c') eqn:E.
    + apply elem_of_cons in H as [H|H].
      * simplify_eq. apply andb_prop in E as [? ?].
        repeat split; try assumption. apply list_elem_of_here.
      * destruct (IH H) as (? & ? & ?). repeat split; try assumption.
        now apply list_elem_of_further.
    + destruct (IH H) as (? & ? & ?). repeat split; try assumption.
      now apply list_elem_of_further.
Qed.

Lemma annotations_intro ps n c :
  Clr n c ∈ ps -> nonempty n = true -> nonempty c = true -> (n, c) ∈ annotations ps.
Proof.
  intros H Hn Hc. induction ps as [|p ps IH]; [now apply not_elem_of_nil in H|].
  apply elem_of_cons in H as [<-|H].
  - cbn [annotations]. rewrite Hn, Hc. apply list_elem_of_here.
  - specialize (IH H). destruct p as [t|n' c']; cbn [annotations]; [assumption|].
    destruct (nonempty n' && nonempty c'); [now apply list_elem_of_further|assumption].
Qed.

Lemma map_id_on {A} (f : A -> A) (l : list A) :
  (forall x, x ∈ l -> f x = x) -> map f l = l.
Proof.
  induction l as [|x l IH]; intros H; [reflexivity|]. simpl.
  rewrite (H x), IH; [reflexivity| |apply list_elem_of_here].
  intros y Hy. apply H. now apply list_elem_of_further.
Qed.

(** ** Extraction *)

Lemma outline_pushTerms colors ms :
  forall acc, outline (pushTerms colors ms acc) = outline acc ++ map captured ms.
Proof.
  induction ms as [|m ms IH]; intros acc; simpl.
  - now rewrite app_nil_r.
  - rewrite IH. unfold outline. rewrite map_app, <- app_assoc. reflexivity.
Qed.

(** The [i]-th term pushed gets its colour from the colour map, or the
    preset of index [i]. *)
Lemma pushTerms_lookup colors ms :
  forall acc i t,
    pushTerms colors ms acc !! i = Some t ->
    acc !! i = Some t
    \/ exists m, ms !! (i - length acc) = Some m /\ length acc <= i
                 /\ t = {| name := fst (captured m); content := snd (captured m);
                           color := or_else (prop colors (fst (captured m))) (presetAt i) |}.
Proof.
  induction ms as [|m ms IH]; intros acc i t H; simpl in H.
  - now left.
  - apply IH in H as [H|(m' & Hm & Hle & ->)].
    + destruct (decide (i < length acc)) as [Hi|Hi].
      * left. now rewrite lookup_app_l in H.
      * right. exists m. rewrite lookup_app_r in H by lia.
        destruct (i - length acc) as [|k] eqn:E; [|now destruct k].
        simpl in H. simplify_eq. replace (length acc) with i by lia.
        repeat split; lia.
    + right. exists m'. rewrite length_app in *. simpl in *.
      replace (i - length acc) with (S (i - (length acc + 1))) by lia.
      repeat split; [assumption|lia].
Qed.

Lemma hits_piece_tokens ps :
  forall pos, map captured (hits (piece_tokens hit_all pos ps)) = annotations ps.
Proof.
  induction ps as [|[t|n c] ps IH]; intros pos; cbn [piece_tokens annotations].
  - reflexivity.
  - now rewrite hits_app, map_app, hits_skip, IH.
  - rewrite hits_app, map_app, IH. unfold hit_all.
    destruct (nonempty n && nonempty c); [reflexivity|].
    now rewrite hits_skip.
Qed.

(** On flat markup, [parseTermsFromLatex] finds the annotations of the
    pieces that have a name and a content. *)
Lemma parse_flat ps colors :
  flat ps = true ->
  outline (parseTermsFromLatex (unparse ps) colors) = annotations ps.
Proof.
  intros Hf. unfold parseTermsFromLatex, tokens.
  rewrite outline_pushTerms, (scan_pieces _ clr_regex_opener hit_all), hits_piece_tokens;
    [reflexivity| |assumption].
  intros. now apply exec_clr_annotation.
Qed.

(** *** The scan of an arbitrary markup *)

(** The matches of [parseTermsFromLatex] are annotations with a name and a
    content, and the tokens cover the markup. *)
Lemma scan_clr (s : str) :
  forall k pos, k <= length s ->
    Forall genuine (scan clr_regex k pos s)
    /\ concat (map raw (scan clr_regex k pos s)) = skipn k s.
Proof.
  induction s as [|c s IH]; intros k pos Hk.
  - simpl in Hk. replace k with 0 by lia.
    rewrite scan_nil by auto with markup. now split.
  - destruct k as [|k].
    + cbn [scan skipn].
      destruct (exec clr_regex (Nat.eqb pos 0) None [] (c :: s)) as [[caps rest]|] eqn:E.
      * apply exec_clr_inv in E as (n & a & -> & Es & Hn & Ha & _).
        assert (L : length (c :: s) - length rest = length (annotation n a)).
        { rewrite Es, length_app. lia. }
        rewrite L. destruct (length (annotation n a)) as [|j] eqn:Ej; [discriminate|].
        assert (F : firstn (S j) (c :: s) = annotation n a).
        { rewrite Es, <- Ej, firstn_app, Nat.sub_diag, firstn_all. cbn [firstn].
          apply app_nil_r. }
        assert (Hj : j <= length s).
        { apply (f_equal (@length ascii)) in Es. rewrite length_app, Ej in Es.
          change (length (c :: s)) with (S (length s)) in Es. lia. }
        destruct (IH j (S pos) Hj) as [G C]. split.
        -- constructor; [|assumption]. exists n, a. rewrite F. auto.
        -- cbn [map concat raw matched]. rewrite C, F.
           change (annotation n a ++ skipn j s = c :: s).
           rewrite <- F. apply (firstn_skipn (S j) (c :: s)).
      * destruct (IH 0 (S pos)) as [G C]; [lia|]. split.
        -- now constructor.
        -- simpl. now rewrite C.
    + cbn [scan skipn]. apply IH. simpl in Hk. lia.
Qed.

Lemma pieces_unparse (ts : list token) :
  Forall genuine ts ->
  concat (map piece_text
            (map (fun k => match k with
                           | Skip c => Text [c]
                           | Hit m => Clr (captured m).1 (captured m).2
                           end) ts))
  = concat (map raw ts).
Proof.
  induction 1 as [|k ts Hk _ IH]; [reflexivity|]. cbn [map concat]. rewrite IH. f_equal.
  destruct k as [c|m]; [reflexivity|]. cbn [piece_text raw].
  destruct Hk as (n & c & Hg & Hm & _). unfold captured. rewrite Hg, Hm. reflexivity.
Qed.

Lemma pieces_annotations (ts : list token) :
  Forall genuine ts ->
  annotations
    (map (fun k => match k with
                   | Skip c => Text [c]
                   | Hit m => Clr (captured m).1 (captured m).2
                   end) ts)
  = map captured (hits ts).
Proof.
  induction 1 as [|k ts Hk _ IH]; [reflexivity|].
  destruct k as [c|m]; cbn [map annotations hits].
  - assumption.
  - destruct Hk as (n & c & Hg & _ & Hn & Hc). rewrite IH. unfold captured. rewrite Hg.
    cbn [nth fst snd]. destruct n; [done|]. destruct c; [done|]. reflexivity.
Qed.

Lemma no_hits_raw (f : MatchResult -> str) (ts : list token) :
  hits ts = [] ->
  map (fun k => match k with Skip c => [c] | Hit m => f m end) ts = map raw ts.
Proof.
  induction ts as [|[c|m] ts IH]; cbn [hits map raw]; intros E.
  - reflexivity.
  - f_equal. auto.
  - discriminate.
Qed.

Lemma presetAt_not_neutral i : presetAt i <> lit "#888888".
Proof.
  unfold presetAt. pose proof (Nat.mod_upper_bound i (length COLOR_PRESETS)) as H.
  destruct (i mod length COLOR_PRESETS) as [|[|[|[|[|[|[|[|k]]]]]]]];
    try discriminate.
  simpl in H. lia.
Qed.

(** No match of the scan starts where the pattern does not match. *)
Lemma no_hit_at (pre a post : str) (m : MatchResult) :
  (forall b, exec clr_regex b None [] (a ++ post) = None) ->
  Hit m ∈ tokens clr_regex (pre ++ a ++ post) -> index m <> length pre.
Proof.
  intros Hno H E. apply scan_hit_exec in H as (_ & rest & X).
  rewrite E, Nat.sub_0_r, skipn_app, Nat.sub_diag, skipn_all in X.
  cbn [skipn app] in X. now rewrite Hno in X.
Qed.

(** ** An update with an empty content, on any markup *)

Section EmptyContent.
Variable N : str.
Hypothesis HN : plain N = true.

(** What stands before an annotation named [N] decides alone, or with the
    name of the annotation, whether an annotation named [N] starts there: the
    content of the annotation that follows does not matter. *)
Lemma occurs_before_annotation (p c c' z z' : str) :
  p <> [] ->
  occurs N (p ++ annotation N c ++ z) = true ->
  occurs N (p ++ annotation N c' ++ z') = true.
Proof.
  intros Hp. rewrite !occurs_spec, !strip_prefix_split.
  destruct (strip_prefix (key N) p) as [p'|] eqn:P.
  - destruct (until_close p') as [u [|x t]] eqn:U.
    + rewrite !(until_close_app_r _ _ _ U), !until_close_annotation by assumption.
      cbn [fst snd]. now destruct p'.
    + now rewrite !(until_close_app_l _ _ _ _ _ U).
  - destruct (strip_prefix p (key N)) as [k'|] eqn:Q; [|discriminate].
    destruct k' as [|d k'].
    { apply strip_prefix_spec in Q. rewrite app_nil_r in Q.
      pose proof (strip_prefix_app (key N) []) as X. rewrite app_nil_r in X.
      rewrite Q in X at 2. congruence. }
    apply strip_prefix_spec in Q. destruct p as [|c0 p]; [done|].
    change (key N) with ("\" :: lit "clr{" ++ N ++ lit "}{") in Q.
    change ((c0 :: p) ++ d :: k') with (c0 :: (p ++ d :: k')) in Q.
    injection Q as _ Q.
    assert (B : no_char "\" (p ++ d :: k') = true).
    { rewrite <- Q. change (no_char "\" (lit "clr{" ++ N ++ lit "}{") = true).
      rewrite !no_char_app, (plain_no_char "\" N) by done. reflexivity. }
    rewrite no_char_app in B. apply andb_prop in B as [_ B].
    cbn [no_char forallb] in B. head_tail B B _.
    rewrite annotation_app. cbn [opener lit list_ascii_of_string app strip_prefix].
    rewrite Ascii.eqb_sym, B. discriminate.
Qed.

Lemma rewritten_miss pos c s :
  exec (update_regex N) false None [] (c :: s) = None ->
  rewritten (update_regex N) (annotation N []) pos (c :: s)
  = c :: rewritten (update_regex N) (annotation N []) (S pos) s.
Proof.
  intros E. unfold rewritten. cbn [scan].
  rewrite (exec_update_bol _ _ false), E. reflexivity.
Qed.

Lemma rewritten_hit pos c s caps rest :
  exec (update_regex N) false None [] (c :: s) = Some (caps, rest) ->
  exists c', c :: s = annotation N c' ++ rest /\ c' <> []
             /\ rewritten (update_regex N) (annotation N []) pos (c :: s)
                = annotation N []
                  ++ rewritten (update_regex N) (annotation N [])
                               (pos + length (annotation N c')) rest.
Proof.
  intros E. destruct (exec_update_inv _ _ _ _ _ E) as (c' & Es & Hc & _).
  exists c'. repeat split; try assumption.
  unfold rewritten. rewrite Es in *.
  rewrite (scan_hit _ _ _ _ caps); [reflexivity| |now destruct c'].
  now rewrite (exec_update_bol _ _ false).
Qed.

(** An annotation named [N] that starts before the rewritten text started
    there before the rewriting. *)
Lemma occurs_pull_back (n : nat) :
  forall x, length x <= n ->
  forall p pos, p <> [] ->
    occurs N (p ++ rewritten (update_regex N) (annotation N []) pos x) = true ->
    occurs N (p ++ x) = true.
Proof.
  induction n as [|n IH]; intros [|c s] Hlen p pos Hp H; try (simpl in Hlen; lia).
  - exact H.
  - exact H.
  - destruct (exec (update_regex N) false None [] (c :: s)) as [[caps rest]|] eqn:E.
    + destruct (rewritten_hit pos _ _ _ _ E) as (c' & Es & Hc & R).
      rewrite R in H. rewrite Es. now apply (occurs_before_annotation p [] c' _ rest) in H.
    + rewrite (rewritten_miss _ _ _ E) in H.
      change (p ++ c :: ?y) with (p ++ [c] ++ y) in H.
      rewrite app_assoc in H. apply IH in H; [|simpl in Hlen; lia|now destruct p].
      now rewrite <- app_assoc in H.
Qed.

(** After the update with an empty content no annotation named [N] with a
    content starts anywhere. *)
Lemma rewritten_no_occurrence (n : nat) :
  forall x, length x <= n ->
  forall pos u v,
    rewritten (update_regex N) (annotation N []) pos x = u ++ v -> occurs N v = false.
Proof.
  induction n as [|n IH]; intros [|c s] Hlen pos u v H; try (simpl in Hlen; lia).
  - unfold rewritten in H. rewrite scan_nil in H by auto with markup.
    symmetry in H. apply app_eq_nil in H as [_ ->]. reflexivity.
  - unfold rewritten in H. rewrite scan_nil in H by auto with markup.
    symmetry in H. apply app_eq_nil in H as [_ ->]. reflexivity.
  - destruct (exec (update_regex N) false None [] (c :: s)) as [[caps rest]|] eqn:E.
    + destruct (rewritten_hit pos _ _ _ _ E) as (c' & Es & Hc & R).
      rewrite R in H. clear R.
      assert (Hrest : length rest <= n).
      { apply (f_equal (@length _)) in Es. rewrite length_app in Es.
        unfold annotation, opener in Es. rewrite !length_app in Es. simpl in *. lia. }
      apply app_eq_app in H as [w [[Hu ->]|[-> Hw]]].
      * destruct u as [|u0 u].
        -- simpl in Hu. subst w. rewrite occurs_spec. unfold key.
           rewrite annotation_app, !strip_prefix_common. reflexivity.
        -- destruct w as [|d w]; [now apply (IH rest Hrest _ [] _ eq_refl)|].
           assert (B : d <> "\").
           { change (annotation N []) with ("\" :: lit "clr{" ++ N ++ lit "}{}") in Hu.
             change ((u0 :: u) ++ d :: w) with (u0 :: (u ++ d :: w)) in Hu.
             injection Hu as _ Hu.
             assert (B : no_char "\" (u ++ d :: w) = true).
             { rewrite <- Hu. change (no_char "\" (lit "clr{" ++ N ++ lit "}{}") = true).
               rewrite !no_char_app, (plain_no_char "\" N) by done. reflexivity. }
             rewrite no_char_app in B. apply andb_prop in B as [_ B].
             cbn [no_char forallb] in B. apply andb_prop in B as [B _].
             apply negb_true_iff, Ascii.eqb_neq in B. congruence. }
           rewrite occurs_spec. unfold key.
           cbn [opener lit list_ascii_of_string app strip_prefix].
           apply Ascii.eqb_neq in B. now rewrite Ascii.eqb_sym, B.
      * now apply (IH rest Hrest _ _ _ Hw).
    + rewrite (rewritten_miss _ _ _ E) in H. destruct u as [|u0 u].
      * simpl in H. subst v.
        destruct (occurs N (c :: rewritten (update_regex N) (annotation N []) (S pos) s))
          eqn:O; [|reflexivity].
        apply (occurs_pull_back n s) with (p := [c]) in O; [|simpl in Hlen; lia|done].
        unfold occurs in O. simpl app in O. now rewrite E in O.
      * change ((u0 :: u) ++ v) with (u0 :: (u ++ v)) in H. injection H as _ H.
        apply (IH s) with (pos := S pos) (u := u); [simpl in Hlen; lia|assumption].
Qed.

(** [handleUpdateTerm] with an empty content: whatever the markup, no term of
    the result is named [N]. *)
Lemma update_empty_no_term (M : str) (colors : gmap str str) :
  exists R, updateTermLatex N [] M = Some R
            /\ forall t, t ∈ parseTermsFromLatex R colors -> name t <> N.
Proof.
  unfold updateTermLatex. rewrite compile_update by assumption.
  eexists. split; [reflexivity|].
  assert (ER : replace_str (update_regex N) (lit "\clr{" ++ N ++ lit "}{" ++ [] ++ lit "}") M
               = rewritten (update_regex N) (annotation N []) 0 M).
  { unfold replace_str, rewritten, tokens. f_equal. apply map_ext. intros [c|m]; [reflexivity|].
    apply expand_plain. change (no_char "$" (lit "\clr{" ++ N ++ lit "}{}") = true).
    rewrite !no_char_app, (plain_no_char "$" N) by done. reflexivity. }
  rewrite ER. set (R := rewritten _ _ 0 M).
  intros t Ht Hname. apply list_elem_of_lookup in Ht as [i Ht].
  apply pushTerms_lookup in Ht as [Ht|(m & Hm & _ & ->)]; [discriminate|].
  apply list_elem_of_lookup_2, hits_elem in Hm.
  apply scan_hit_exec in Hm as (_ & rest & X).
  apply exec_clr_inv in X as (n & c & Hg & Es & Hn & Hc & Nn & Nc).
  unfold captured in Hname. cbn [name fst] in Hname. rewrite Hg in Hname.
  cbn [nth] in Hname. subst n.
  assert (O : occurs N (skipn (index m - 0) R) = true).
  { rewrite Es. unfold occurs. rewrite exec_update_annotation by assumption.
    unfold hit_update. rewrite decide_True by done. now destruct c. }
  rewrite (rewritten_no_occurrence (length M) M (Nat.le_refl _) 0
             (firstn (index m - 0) R) (skipn (index m - 0) R)) in O; [discriminate|].
  symmetry. apply firstn_skipn.
Qed.

End EmptyContent.

(** ** Substrings and numbers *)

Lemma substring_middle (A S B : str) :
  substring (A ++ S ++ B) (length A) (length A + length S) = S.
Proof.
  unfold substring. rewrite !length_app.
  rewrite (Nat.min_l (length A)), (Nat.min_l (length A + length S)) by lia.
  rewrite Nat.min_l, Nat.max_r by lia.
  rewrite skipn_app, skipn_all, Nat.sub_diag. cbn [skipn app].
  replace (length A + length S - length A) with (length S) by lia.
  change (skipn 0 (S ++ B)) with (S ++ B).
  rewrite firstn_app, Nat.sub_diag, firstn_all. cbn [firstn]. apply app_nil_r.
Qed.

Lemma substring_prefix (A B : str) : substring (A ++ B) 0 (length A) = A.
Proof.
  unfold substring. rewrite length_app.
  rewrite Nat.min_0_l, (Nat.min_l (length A)) by lia.
  rewrite Nat.min_0_l, Nat.max_r, Nat.sub_0_r by lia.
  change (skipn 0 (A ++ B)) with (A ++ B).
  rewrite firstn_app, Nat.sub_diag, firstn_all. cbn [firstn]. apply app_nil_r.
Qed.

Lemma substring_from_suffix (A S B : str) :
  substring_from (A ++ S ++ B) (length A + length S) = B.
Proof.
  unfold substring_from. rewrite app_assoc, <- length_app.
  rewrite skipn_app, skipn_all, Nat.sub_diag. reflexivity.
Qed.

(** The characters of a decimal number are digits. *)
Lemma uint_forallb (P : ascii -> bool) (d : Decimal.uint) :
  forallb P (lit "0123456789") = true ->
  forallb P (lit (NilEmpty.string_of_uint d)) = true.
Proof.
  intros H. cbn in H. repeat (apply andb_prop in H as [? H]).
  induction d; cbn [NilEmpty.string_of_uint lit list_ascii_of_string forallb];
    [reflexivity|..]; fold (lit (NilEmpty.string_of_uint d));
    apply andb_true_intro; (split; [assumption|exact IHd]).
Qed.

(** The name [handleAddTerm] makes up is fit for an annotation. *)
Lemma new_name_wf (k : nat) :
  no_char "}" (lit "term" ++ number k) = true
  /\ calm (lit "term" ++ number k) = true
  /\ nonempty (lit "term" ++ number k) = true.
Proof.
  repeat split.
  - rewrite no_char_app. apply andb_true_intro. split; [reflexivity|].
    apply uint_forallb. reflexivity.
  - apply no_backslash_calm. rewrite no_char_app. apply andb_true_intro.
    split; [reflexivity|]. apply uint_forallb. reflexivity.
Qed.

(** * The claims *)

(** ** C1 *)

(** C1 (as amended). On the markup [x + \clr{a}{y} = \clr{b}{z}] with an
    empty colour map, the extraction yields the terms [a] and [b], in that
    order, with the first two colours of the palette; the preview of that
    markup with that colour map wraps both contents in the neutral colour
    [#888888], since the extraction has not put the colours in the map. *)
Theorem scenario_extract_and_preview :
  parseTermsFromLatex scenario ∅
  = [ {| name := lit "a"; content := lit "y"; color := lit "#ef4444" |};
      {| name := lit "b"; content := lit "z"; color := lit "#3b82f6" |} ]
  /\ presetAt 0 = lit "#ef4444" /\ presetAt 1 = lit "#3b82f6"
  /\ processedLatex scenario ∅
     = lit "x + \textcolor{#888888}{y} = \textcolor{#888888}{z}".
Proof. repeat split; vm_compute; reflexivity. Qed.

(** C1, as the specification words it, fails: the preview does not use the
    palette colours of the two terms. *)
Lemma scenario_preview_not_palette : ~ scenario_as_specified.
Proof. intros [_ H]. vm_compute in H. discriminate H. Qed.

(** ** C2 *)

(** C2 (as amended). The colour of the [i]-th extracted term, when its name
    is not the name of a member of [Object.prototype], is the entry of its
    name in the colour map when there is one and it is not the empty string,
    and otherwise the preset whose index is [i], the number of terms found
    before it, known or not, modulo the number of presets. *)
Theorem term_color_resolution (M : str) (colors : gmap str str) (i : nat) (t : Term) :
  parseTermsFromLatex M colors !! i = Some t ->
  inherited (name t) = None ->
  color t = match colors !! name t with
            | Some (x :: c) => x :: c
            | _ => presetAt i
            end
  /\ presetAt i = value (nth (i mod 8) COLOR_PRESETS {| label := []; value := [] |}).
Proof.
  intros H I. split; [|reflexivity].
  apply pushTerms_lookup in H as [H|(m & _ & _ & ->)]; [discriminate|].
  cbn [name color] in *. unfold or_else, prop. rewrite I.
  now destruct (colors !! (captured m).1) as [[|x c]|].
Qed.

Lemma term_color_resolution_witness :
  parseTermsFromLatex two_terms a_is_black !! 1
  = Some {| name := lit "b"; content := lit "y"; color := lit "#3b82f6" |}
  /\ (lit "#3b82f6"
      = match a_is_black !! lit "b" with
        | Some (x :: c) => x :: c
        | _ => presetAt 1
        end
      /\ presetAt 1 = value (nth (1 mod 8) COLOR_PRESETS {| label := []; value := [] |})).
Proof.
  split; [vm_compute; reflexivity|].
  apply (term_color_resolution two_terms a_is_black 1
           {| name := lit "b"; content := lit "y"; color := lit "#3b82f6" |});
    vm_compute; reflexivity.
Defined.

(** A name that [Object.prototype] defines and the colour map lacks takes
    the inherited member for its colour, in the list and in the preview: the
    lookup is not restricted to the own entries of the map. *)
Lemma inherited_member_is_the_color :
  parseTermsFromLatex (lit "\clr{constructor}{x}") ∅
  = [ {| name := lit "constructor"; content := lit "x";
         color := lit "function Object() { [native code] }" |} ]
  /\ processedLatex (lit "\clr{constructor}{x}") ∅
     = lit "\textcolor{function Object() { [native code] }}{x}".
Proof. split; vm_compute; reflexivity. Qed.

(** C2, as the specification words it, fails: with [a] in the colour map,
    the unknown term [b] that follows it gets the second preset, not the
    first. *)
Lemma colors_not_by_unknown_rank :
  ~ colors_as_specified two_terms a_is_black.
Proof.
  intros H.
  specialize (H 1 {| name := lit "b"; content := lit "y"; color := lit "#3b82f6" |}).
  vm_compute in H. specialize (H eq_refl). discriminate H.
Qed.

(** ** C3 *)

(** C3 (as amended). On a flat markup, for a name [X] free of pattern syntax
    and a new content without a dollar sign, [handleUpdateTerm] rewrites the
    content of the annotations named [X] that have one, [handleRemoveTerm]
    replaces them by their content, and every other piece of the markup, in
    particular every annotation of another name, stays as it is, in place. *)
Theorem edits_are_name_scoped (ps : list piece) (X c' : str) :
  flat ps = true -> plain X = true -> no_char "$" c' = true ->
  updateTermLatex X c' (unparse ps) = Some (unparse (map (set_content X c') ps))
  /\ removeTermLatex X (unparse ps) = Some (unparse (map (strip X) ps))
  /\ (forall Y c, Y <> X ->
        set_content X c' (Clr Y c) = Clr Y c /\ strip X (Clr Y c) = Clr Y c)
  /\ (forall t, set_content X c' (Text t) = Text t /\ strip X (Text t) = Text t).
Proof.
  intros Hf HX Hc. repeat split.
  - now apply update_flat.
  - now apply remove_flat.
  - unfold set_content. now rewrite decide_False.
  - unfold strip. now rewrite decide_False.
Qed.

Lemma edits_are_name_scoped_witness :
  updateTermLatex (lit "a") (lit "w") (unparse sample)
  = Some (lit "\frac{\clr{a}{w}}{2} = \clr{b}{\alpha z} + \sqrt{\clr{a}{w}}")
  /\ removeTermLatex (lit "a") (unparse sample)
     = Some (lit "\frac{y}{2} = \clr{b}{\alpha z} + \sqrt{y}").
Proof.
  destruct (edits_are_name_scoped sample (lit "a") (lit "w")) as (U & R & _);
    [reflexivity..|].
  split; [exact U|exact R].
Defined.

(** C3, as the specification words it, fails: removing [X] from
    [\clr{Y}{\clr{X}{c}] takes the closing brace of the annotation [Y] away. *)
Lemma removal_breaks_other_name :
  ~ scoped_as_specified (lit "\clr{Y}{\clr{X}{c}") (lit "X") (lit "Y") (lit "w").
Proof.
  intros H. destruct H as [_ H]; [discriminate|].
  specialize (H (lit "\clr{Y}{c") eq_refl). vm_compute in H. discriminate H.
Qed.

(** ** C4 *)




(** ** C5 *)

(** C5 (as amended). On a flat markup whose extraction has exactly one term
    named [N], of content [C], with [N] free of pattern syntax and [C]
    without a dollar sign, [handleUpdateTerm] with the content [C] leaves the
    markup as it is, and its extraction has a term of name [N] and content
    [C]. *)
Theorem unchanged_content_roundtrip (ps : list piece) (N C : str) (colors : gmap str str) :
  flat ps = true -> plain N = true -> no_char "$" C = true ->
  named N (outline (parseTermsFromLatex (unparse ps) colors)) = [(N, C)] ->
  exists R,
    updateTermLatex N C (unparse ps) = Some R
    /\ R = unparse ps
    /\ exists t, t ∈ parseTermsFromLatex R colors /\ name t = N /\ content t = C.
Proof.
  intros Hf HN HC Hone. exists (unparse ps).
  assert (Hin : (N, C) ∈ outline (parseTermsFromLatex (unparse ps) colors)).
  { apply (list_elem_of_filter (fun a => a.1 = N)). unfold named in Hone.
    rewrite Hone. apply list_elem_of_here. }
  repeat split.
  - rewrite update_flat by assumption. do 2 f_equal. apply map_id_on.
    intros [t|n c] Hp; [reflexivity|]. cbn [set_content].
    destruct (decide (n = N)) as [->|]; [|reflexivity].
    destruct (nonempty c) eqn:Ec; [|reflexivity].
    rewrite parse_flat in Hin, Hone by assumption.
    apply annotations_elem in Hin as (_ & HNn & _).
    assert (Hc : (N, c) ∈ named N (annotations ps)).
    { apply list_elem_of_filter. split; [reflexivity|]. now apply annotations_intro. }
    rewrite Hone in Hc. apply list_elem_of_singleton in Hc. now simplify_eq.
  - unfold outline in Hin. apply list_elem_of_fmap in Hin as (t & Et & Ht).
    exists t. simplify_eq. auto.
Qed.

Lemma unchanged_content_roundtrip_witness :
  exists R,
    updateTermLatex (lit "b") (lit "\alpha z") (unparse sample) = Some R
    /\ R = unparse sample
    /\ exists t, t ∈ parseTermsFromLatex R ∅ /\ name t = lit "b" /\ content t = lit "\alpha z".
Proof.
  apply (unchanged_content_roundtrip sample (lit "b") (lit "\alpha z") ∅);
    vm_compute; reflexivity.
Defined.

(** C5, as the specification words it, fails: [\clr{N}{C}] stands once in
    [\clr{Y}{\clr{N}{xx\clr{N}{C}], whose extraction has one term named [N],
    of content [C]; the update rewrites the annotation that starts inside the
    content of [Y], and the extraction of the result has no term named [N]. *)
Lemma roundtrip_loses_the_term :
  ~ roundtrip_as_specified tangled (lit "N") (lit "C").
Proof.
  intros H. specialize (H eq_refl eq_refl (lit "\clr{Y}{\clr{N}{C}{C}") eq_refl).
  assert (E : outline (parseTermsFromLatex (lit "\clr{Y}{\clr{N}{C}{C}") ∅)
              = [(lit "Y", lit "\clr{N")]) by (vm_compute; reflexivity).
  rewrite E in H. apply list_elem_of_singleton in H. discriminate H.
Qed.

(** Apart from that, a content with a dollar sign is not written back as it
    is: the replacement string expands [$$] into [$]. *)
Lemma dollar_content_is_expanded :
  updateTermLatex (lit "a") (lit "$$") (lit "\clr{a}{$$}") = Some (lit "\clr{a}{$}").
Proof. reflexivity. Qed.

(** ** C6 *)

(** What [handleAddTerm] does when it is handed a textarea: when the markup
    is flat around the selection, a calm text without closing brace, it puts
    the annotation [\clr{term<k+1>}{<selection>}] in place of the selection,
    where [k] is the current number of terms and the selection is replaced by
    [text] when it is empty; the extraction of the new markup is the
    extraction of the old one with one more term, of that name and that
    content, at the place of the selection. *)
Lemma handleAddTerm_on_textarea (psA psB : list piece) (S : str) (st : State)
      (colors colors' : gmap str str) :
  flat psA = true -> flat psB = true -> calm S = true -> no_char "}" S = true ->
  latex st = unparse psA ++ S ++ unparse psB ->
  let st' := handleAddTerm st (Some {| selectionStart := length (unparse psA);
                                       selectionEnd := length (unparse psA) + length S |}) in
  latex st'
  = unparse psA
    ++ annotation (lit "term" ++ number (length (terms st) + 1))
                  (match S with [] => lit "text" | _ :: _ => S end)
    ++ unparse psB
  /\ outline (parseTermsFromLatex (latex st) colors) = annotations psA ++ annotations psB
  /\ outline (parseTermsFromLatex (latex st') colors')
     = annotations psA
       ++ (lit "term" ++ number (length (terms st) + 1),
           match S with [] => lit "text" | _ :: _ => S end)
       :: annotations psB.
Proof.
  intros HA HB HS NS Hl st'. subst st'.
  set (name' := lit "term" ++ number (length (terms st) + 1)).
  set (text' := match S with [] => lit "text" | _ :: _ => S end).
  destruct (new_name_wf (length (terms st) + 1)) as (Nn & Cn & En). fold name' in Nn, Cn, En.
  assert (Wt : no_char "}" text' = true /\ calm text' = true /\ nonempty text' = true).
  { subst text'. destruct S; [repeat split|]; repeat split; assumption. }
  destruct Wt as (Nt & Ct & Et).
  assert (L : latex (handleAddTerm st (Some {| selectionStart := length (unparse psA);
                                               selectionEnd := length (unparse psA) + length S |}))
              = unparse (psA ++ Clr name' text' :: psB)).
  { unfold handleAddTerm. cbn [latex selectionStart selectionEnd]. rewrite Hl.
    rewrite substring_middle, substring_prefix, substring_from_suffix.
    rewrite unparse_app. fold name'. fold text'. f_equal.
    change (unparse (Clr name' text' :: psB)) with (annotation name' text' ++ unparse psB).
    unfold annotation, opener. subst text'. destruct S; now rewrite <- !app_assoc. }
  assert (O : latex st = unparse (psA ++ Text S :: psB)).
  { rewrite Hl, unparse_app. reflexivity. }
  assert (F1 : flat (psA ++ Clr name' text' :: psB) = true).
  { rewrite flat_app, HA. cbn [flat forallb wf_piece andb].
    fold (flat psB). now rewrite Nn, Nt, Cn, Ct, HB. }
  assert (F0 : flat (psA ++ Text S :: psB) = true).
  { rewrite flat_app, HA. cbn [flat forallb wf_piece andb]. fold (flat psB).
    now rewrite HS, HB. }
  repeat split.
  - rewrite L, unparse_app. reflexivity.
  - rewrite O, parse_flat, annotations_app by assumption. reflexivity.
  - rewrite L, parse_flat, annotations_app by assumption. cbn [annotations].
    now rewrite En, Et.
Qed.

(** C6 fails on the code. The add button is on the terms tab, which does not
    render the textarea: [textareaRef.current] is [null] when [handleAddTerm]
    runs, and the handler leaves the markup, the colour map and the term list
    as they are. On the LaTeX tab, where the textarea is, there is no add
    button. So, after an equation is opened, a range is selected and the add
    button is clicked, the markup has no annotation and the extraction no
    term. *)
Theorem add_button_inserts_nothing :
  (forall (st : State) (selection : Textarea),
      perform {| session := st; activeTab := TermsTab; textarea := selection |}
              AddTermClicked
      = Some {| session := st; activeTab := TermsTab; textarea := selection |})
  /\ (forall (st : State) (selection : Textarea),
         perform {| session := st; activeTab := LatexTab; textarea := selection |}
                 AddTermClicked
         = None)
  /\ exists m,
       performAll [ Raised (EquationOpened {| Equation.latex := lit "x + y";
                                              Equation.colorMap := None |});
                    Selected {| selectionStart := 4; selectionEnd := 5 |};
                    TabClicked TermsTab {| selectionStart := 0; selectionEnd := 0 |};
                    AddTermClicked ] initialModal = Some m
       /\ latex (session m) = lit "x + y"
       /\ terms (session m) = []
       /\ parseTermsFromLatex (latex (session m)) (colorMap (session m)) = [].
Proof.
  split; [reflexivity|]. split; [reflexivity|].
  eexists. split; [reflexivity|]. repeat split.
Qed.

(** ** C7 *)

(** C7 (as amended). On a flat markup, for a name free of pattern syntax,
    removing twice is removing once. *)
Theorem remove_twice (ps : list piece) (N : str) :
  flat ps = true -> plain N = true ->
  exists R, removeTermLatex N (unparse ps) = Some R /\ removeTermLatex N R = Some R.
Proof.
  intros Hf HN. exists (unparse (map (strip N) ps)). split.
  - now apply remove_flat.
  - rewrite remove_flat by (try apply flat_strip; assumption).
    rewrite map_map. do 2 f_equal. apply map_ext. intros p. apply strip_strip.
Qed.

Lemma remove_twice_witness :
  exists R, removeTermLatex (lit "a") (unparse sample) = Some R
            /\ removeTermLatex (lit "a") R = Some R.
Proof. apply (remove_twice sample (lit "a")); reflexivity. Defined.

(** C7, as the specification words it, fails: on [\clr{N}{\clr{N}}{c}] the
    first removal gives [\clr{N}{c}] and the second one [c]. *)
Lemma removal_not_idempotent :
  ~ idempotent_as_specified (lit "\clr{N}{\clr{N}}{c}") (lit "N").
Proof.
  intros H. specialize (H (lit "\clr{N}{c}") eq_refl). vm_compute in H. discriminate H.
Qed.

(** ** C8 *)

(** C8 (as amended). The scan of the preview cuts the markup into the
    annotations the extraction finds and the characters between them; when no
    annotation has the name of a member of [Object.prototype], the preview
    puts [\textcolor{<color>}{<content>}] in place of each annotation and
    keeps the characters between them, where the colour is the entry of the
    name in the colour map when there is one and it is not the empty string,
    and [#888888] otherwise, which is none of the presets. A markup without
    annotation is left as it is. *)
Theorem preview_rewrites_annotations (M : str) (colorMap : gmap str str) :
  (forall n c, (n, c) ∈ annotations (pieces M) -> inherited n = None) ->
  unparse (pieces M) = M
  /\ annotations (pieces M) = outline (parseTermsFromLatex M colorMap)
  /\ processedLatex M colorMap = concat (map (rendered colorMap) (pieces M))
  /\ (forall i, presetAt i <> lit "#888888")
  /\ (parseTermsFromLatex M colorMap = [] -> processedLatex M colorMap = M).
Proof.
  intros I.
  destruct (scan_clr M 0 0 (Nat.le_0_l _)) as [G C]. fold (tokens clr_regex M) in G, C.
  assert (P : processedLatex M colorMap = concat (map (rendered colorMap) (pieces M))).
  { unfold processedLatex, replace_fn. f_equal.
    pose proof (pieces_annotations _ G) as A. fold (pieces M) in A.
    unfold pieces in *. rewrite map_map.
    assert (K : forall m, m ∈ hits (tokens clr_regex M) -> inherited (captured m).1 = None).
    { intros m Hm. apply (I _ (captured m).2). rewrite A.
      apply (list_elem_of_fmap_2 captured) in Hm. now destruct (captured m). }
    clear A I C. induction (tokens clr_regex M) as [|[c|m] ts IH]; [reflexivity|..].
    - cbn [map]. f_equal. apply IH; [now inversion G|]. exact K.
    - cbn [map]. f_equal.
      + pose proof (K m (list_elem_of_here _ _)) as Km.
        unfold rendered, or_else, captured, prop in *. cbn [fst snd] in *.
        rewrite Km.
        now destruct (colorMap !! nth 0 (groups m) []) as [[|x col]|].
      + apply IH; [now inversion G|]. intros m' Hm'. apply K.
        now apply list_elem_of_further. }
  repeat split.
  - unfold unparse, pieces. now rewrite pieces_unparse.
  - unfold pieces, parseTermsFromLatex. now rewrite pieces_annotations, outline_pushTerms.
  - exact P.
  - apply presetAt_not_neutral.
  - intros E. apply (f_equal outline) in E.
    unfold parseTermsFromLatex in E. rewrite outline_pushTerms in E. simpl in E.
    apply map_eq_nil in E.
    unfold processedLatex, replace_fn. now rewrite (no_hits_raw _ _ E).
Qed.

Lemma preview_rewrites_annotations_witness :
  unparse (pieces two_terms) = two_terms
  /\ annotations (pieces two_terms) = outline (parseTermsFromLatex two_terms a_is_black)
  /\ processedLatex two_terms a_is_black
     = concat (map (rendered a_is_black) (pieces two_terms))
  /\ (forall i, presetAt i <> lit "#888888")
  /\ (parseTermsFromLatex two_terms a_is_black = []
      -> processedLatex two_terms a_is_black = two_terms).
Proof.
  apply (preview_rewrites_annotations two_terms a_is_black).
  intros n c H. vm_compute in H.
  repeat (apply elem_of_cons in H as [H|H]; [injection H as -> _; reflexivity|]).
  inversion H.
Defined.

(** C8, as the specification words it, fails: an entry of the colour map
    that is the empty string is not used. *)
Lemma preview_skips_empty_color :
  ~ preview_as_specified one_term {[ lit "a" := [] ]}.
Proof. intros H. vm_compute in H. discriminate H. Qed.

(** ** C9 *)

(** C9 fails on the code for a name with pattern syntax: the markup
    [\clr{a}{y}] has no annotation named [.], and yet [handleUpdateTerm] and
    [handleRemoveTerm] called with the name [.] rewrite the annotation [a],
    since the name is pasted into the pattern as it is. *)
Theorem dot_name_matches_any_letter :
  (forall u c rest, one_term <> u ++ annotation (lit ".") c ++ rest)
  /\ (forall t, t ∈ parseTermsFromLatex one_term ∅ -> name t <> lit ".")
  /\ updateTermLatex (lit ".") (lit "w") one_term = Some (lit "\clr{.}{w}")
  /\ removeTermLatex (lit ".") one_term = Some (lit "y").
Proof.
  repeat split; try (vm_compute; reflexivity).
  - intros u c rest E.
    do 11 (destruct u as [|? u]; [discriminate E|]). discriminate E.
  - intros t Ht. vm_compute in Ht. apply list_elem_of_singleton in Ht. now subst t.
Qed.

(** ** C10 *)

(** Every term the extraction produces has a non-empty name and a non-empty
    content; an annotation with an empty name or an empty content is not a
    match of the scan, wherever it stands in the markup. *)
Lemma extraction_needs_name_and_content :
  (forall (M : str) (colors : gmap str str) (t : Term),
      t ∈ parseTermsFromLatex M colors -> name t <> [] /\ content t <> [])
  /\ (forall (pre c post : str) (m : MatchResult),
         Hit m ∈ tokens clr_regex (pre ++ annotation [] c ++ post) ->
         index m <> length pre)
  /\ (forall (pre n post : str) (m : MatchResult),
         no_char "}" n = true ->
         Hit m ∈ tokens clr_regex (pre ++ annotation n [] ++ post) ->
         index m <> length pre).
Proof.
  repeat apply conj.
  - intros M colors t Ht. apply list_elem_of_lookup in Ht as [i Ht].
    apply pushTerms_lookup in Ht as [Ht|(m & Hm & _ & ->)]; [discriminate|].
    apply list_elem_of_lookup_2, hits_elem in Hm.
    destruct (scan_clr M 0 0 (Nat.le_0_l _)) as [G _].
    rewrite Forall_forall in G. apply G in Hm as (n & c & Hg & _ & Hn & Hc).
    unfold captured. cbn [name content]. rewrite Hg. now split.
  - intros pre c post m. apply no_hit_at. intros b.
    rewrite exec_clr, annotation_app, strip_prefix_app. reflexivity.
  - intros pre n post m Nn. apply no_hit_at. intros b.
    rewrite exec_clr_annotation by done. unfold hit_all. cbn [nonempty].
    now rewrite andb_false_r.
Qed.

(** For a name [N] free of pattern syntax, [handleUpdateTerm] with an empty
    content puts [\clr{N}{}] in place of every annotation named [N] that has
    a content, on a flat markup, and the extraction of the markup it leaves
    has no term named [N]. *)
Lemma emptied_plain_name (ps : list piece) (N : str) (colors : gmap str str) :
  flat ps = true -> plain N = true ->
  updateTermLatex N [] (unparse ps) = Some (unparse (map (set_content N []) ps))
  /\ forall t, t ∈ parseTermsFromLatex (unparse (map (set_content N []) ps)) colors ->
               name t <> N.
Proof.
  intros F HN.
  pose proof (update_flat N HN ps [] F eq_refl) as U. split; [exact U|].
  destruct (update_empty_no_term N HN (unparse ps) colors) as (R & E & H).
  rewrite U in E. injection E as <-. exact H.
Qed.

(** C10 fails on the code for a name with pattern syntax: the extraction
    finds the term [a+b] in [\clr{a+b}{x}], and [handleUpdateTerm] called
    with that name and an empty content leaves the markup as it is, since the
    name is pasted into the pattern as it is and [a+] stands there for a run
    of [a]; the term [a+b] is in the extraction as before, with its
    content. *)
Theorem plus_name_keeps_its_content :
  parseTermsFromLatex (lit "\clr{a+b}{x}") ∅
  = [ {| name := lit "a+b"; content := lit "x"; color := lit "#ef4444" |} ]
  /\ exists R,
       updateTermLatex (lit "a+b") [] (lit "\clr{a+b}{x}") = Some R
       /\ R = lit "\clr{a+b}{x}"
       /\ parseTermsFromLatex R ∅
          = [ {| name := lit "a+b"; content := lit "x"; color := lit "#ef4444" |} ].
Proof.
  split; [vm_compute; reflexivity|].
  eexists. split; [vm_compute; reflexivity|]. split; vm_compute; reflexivity.
Qed.
(** * Further properties: the handlers on the state of the modal *)

(** ** The lookup in the colour map *)

Lemma prop_insert_eq (o : gmap str str) (k v : str) : prop (<[k := v]> o) k = Some v.
Proof. unfold prop. now rewrite lookup_insert_eq. Qed.

Lemma prop_insert_ne (o : gmap str str) (k k' v : str) :
  k <> k' -> prop (<[k := v]> o) k' = prop o k'.
Proof. intros D. unfold prop. now rewrite lookup_insert_ne. Qed.

Lemma prop_own (o : gmap str str) (k : str) : inherited k = None -> prop o k = o !! k.
Proof. intros I. unfold prop. rewrite I. now destruct (o !! k). Qed.

(** ** The extraction, colours included *)

Lemma pushTerms_colorize colors ms :
  forall acc,
    pushTerms colors ms acc = acc ++ colorize colors (length acc) (map captured ms).
Proof.
  induction ms as [|m ms IH]; intros acc; simpl.
  - now rewrite app_nil_r.
  - rewrite IH, <- app_assoc, length_app. simpl.
    now rewrite Nat.add_1_r.
Qed.

Lemma outline_colorize colors l : forall i, outline (colorize colors i l) = l.
Proof.
  induction l as [|[n c] l IH]; intros i; simpl; [reflexivity|].
  now rewrite IH.
Qed.

Lemma colorize_app colors l1 l2 :
  forall i, colorize colors i (l1 ++ l2)
            = colorize colors i l1 ++ colorize colors (i + length l1) l2.
Proof.
  induction l1 as [|[n c] l1 IH]; intros i; simpl.
  - now rewrite Nat.add_0_r.
  - rewrite IH. now replace (S i + length l1) with (i + S (length l1)) by lia.
Qed.

Lemma colorize_lookup colors l :
  forall i k t, colorize colors i l !! k = Some t ->
    exists n c, l !! k = Some (n, c)
                /\ t = {| name := n; content := c;
                          color := or_else (prop colors n) (presetAt (i + k)) |}.
Proof.
  induction l as [|[n c] l IH]; intros i k t H; [discriminate H|].
  destruct k as [|k]; simpl in H.
  - injection H as <-. exists n, c. now rewrite Nat.add_0_r.
  - apply IH in H as (n' & c' & E & ->). exists n', c'. split; [exact E|].
    now replace (S i + k) with (i + S k) by lia.
Qed.

Lemma parse_pieces (M : str) colors :
  parseTermsFromLatex M colors = colorize colors 0 (annotations (pieces M)).
Proof.
  destruct (scan_clr M 0 0 (Nat.le_0_l _)) as [G _]. fold (tokens clr_regex M) in G.
  unfold parseTermsFromLatex, pieces.
  now rewrite pushTerms_colorize, pieces_annotations.
Qed.

Lemma parse_flat_terms ps colors :
  flat ps = true ->
  parseTermsFromLatex (unparse ps) colors = colorize colors 0 (annotations ps).
Proof.
  intros F. unfold parseTermsFromLatex, tokens.
  rewrite (scan_pieces clr_regex clr_regex_opener hit_all) by
    (try assumption; intros; now apply exec_clr_annotation).
  now rewrite pushTerms_colorize, hits_piece_tokens.
Qed.

(** ** Pieces under the edits *)

Lemma editable_wf c :
  editable c = true ->
  nonempty c = true /\ no_char "}" c = true /\ calm c = true /\ no_char "$" c = true.
Proof.
  unfold editable. intros H.
  apply andb_prop in H as [H H4]. apply andb_prop in H as [H H3].
  apply andb_prop in H as [H1 H2]. now repeat split.
Qed.

Lemma flat_set_content ps N c' :
  no_char "}" c' = true -> calm c' = true ->
  flat ps = true -> flat (map (set_content N c') ps) = true.
Proof.
  intros B C. unfold flat. rewrite !forallb_forall. intros F p Hp.
  apply in_map_iff in Hp as (q & <- & Hq). specialize (F q Hq).
  destruct q as [t|n c]; [exact F|]. unfold set_content.
  destruct (decide (n = N)); [|exact F]. destruct (nonempty c); [|exact F].
  apply wf_clr in F as (F1 & _ & F3 & _). cbn [wf_piece]. now rewrite F1, B, F3, C.
Qed.

Lemma annotations_set_content ps N c' :
  nonempty c' = true ->
  annotations (map (set_content N c') ps)
  = map (fun a => if decide (a.1 = N) then (N, c') else a) (annotations ps).
Proof.
  intros E. induction ps as [|[t|n c] ps IH]; simpl; [reflexivity|exact IH|].
  destruct (decide (n = N)) as [->|D].
  - destruct (nonempty c) eqn:Ec; cbn [annotations].
    + rewrite E. destruct (nonempty N); simpl; [|exact IH].
      rewrite decide_True by reflexivity. now rewrite IH.
    + rewrite Ec, andb_false_r. exact IH.
  - cbn [annotations]. destruct (nonempty n && nonempty c); [|exact IH].
    simpl. rewrite decide_False by exact D. now rewrite IH.
Qed.

Lemma set_content_twice N c1 c2 p :
  nonempty c1 = true -> set_content N c2 (set_content N c1 p) = set_content N c2 p.
Proof.
  intros E. destruct p as [t|n c]; [reflexivity|]. unfold set_content.
  destruct (decide (n = N)) as [->|D].
  - destruct (nonempty c) eqn:Ec.
    + rewrite decide_True by reflexivity. now rewrite E.
    + rewrite decide_True by reflexivity. now rewrite Ec.
  - now rewrite decide_False by exact D.
Qed.

Lemma set_content_comm X Y c d p :
  X <> Y -> set_content Y d (set_content X c p) = set_content X c (set_content Y d p).
Proof.
  intros D. destruct p as [t|n c0]; [reflexivity|]. unfold set_content.
  destruct (nonempty c0) eqn:E;
    repeat (case_decide; simplify_eq; rewrite ?E); reflexivity.
Qed.


(** ** The edits on the whole state *)

Section FlatState.
Variable ps : list piece.
Variable st : State.
Hypothesis Hflat : flat ps = true.
Hypothesis Hlatex : latex st = unparse ps.

Lemma handleUpdateTerm_flat X c col :
  plain X = true -> no_char "$" c = true ->
  handleUpdateTerm st X c col
  = Some {| latex := unparse (map (set_content X c) ps);
            colorMap := <[X := col]> (colorMap st);
            terms := map (fun t => if decide (name t = X)
                                   then {| name := name t; content := c; color := col |}
                                   else t) (terms st) |}.
Proof using Hflat Hlatex.
  intros PX D. unfold handleUpdateTerm.
  now rewrite Hlatex, (update_flat X PX ps c Hflat D).
Qed.

Lemma handleRemoveTerm_flat X :
  plain X = true ->
  handleRemoveTerm st X
  = Some {| latex := unparse (map (strip X) ps);
            colorMap := delete X (colorMap st);
            terms := filter (fun t => name t <> X) (terms st) |}.
Proof using Hflat Hlatex.
  intros PX. unfold handleRemoveTerm.
  now rewrite Hlatex, (remove_flat X PX ps Hflat).
Qed.

End FlatState.

Lemma handleUpdateTerm_pieces ps cm ts X c col :
  flat ps = true -> plain X = true -> no_char "$" c = true ->
  handleUpdateTerm {| latex := unparse ps; colorMap := cm; terms := ts |} X c col
  = Some {| latex := unparse (map (set_content X c) ps);
            colorMap := <[X := col]> cm;
            terms := map (fun t => if decide (name t = X)
                                   then {| name := name t; content := c; color := col |}
                                   else t) ts |}.
Proof.
  intros F PX D.
  exact (handleUpdateTerm_flat ps {| latex := unparse ps; colorMap := cm; terms := ts |}
                               F eq_refl X c col PX D).
Qed.


Lemma update_colorize colors X c col :
  nonempty col = true ->
  forall l i,
    map (fun t => if decide (name t = X)
                  then {| name := name t; content := c; color := col |}
                  else t) (colorize colors i l)
    = colorize (<[X := col]> colors) i
               (map (fun a => if decide (a.1 = X) then (X, c) else a) l).
Proof.
  intros E. induction l as [|[n c0] l IH]; intros i; [reflexivity|].
  cbn [colorize map name fst]. rewrite IH. f_equal.
  destruct (decide (n = X)) as [->|D]; cbn [colorize].
  - rewrite prop_insert_eq. destruct col; [discriminate E|reflexivity].
  - now rewrite prop_insert_ne by congruence.
Qed.

Lemma presetAt_nonempty i : nonempty (presetAt i) = true.
Proof.
  unfold presetAt. pose proof (Nat.mod_upper_bound i (length COLOR_PRESETS)) as H.
  destruct (i mod length COLOR_PRESETS) as [|[|[|[|[|[|[|[|k]]]]]]]];
    try reflexivity.
  simpl in H. lia.
Qed.

Lemma outline_filter ts X :
  outline (filter (fun t => name t <> X) ts) = filter (fun a => a.1 <> X) (outline ts).
Proof.
  induction ts as [|t ts IH]; [reflexivity|]. cbn [outline map].
  destruct (decide (name t = X)) as [E|D].
  - rewrite !filter_cons_False by (cbn; tauto). exact IH.
  - rewrite !filter_cons_True by (cbn; tauto). cbn [outline map]. f_equal. exact IH.
Qed.

(** ** The term list and the markup *)

Lemma in_sync_reopened st : in_sync st <-> reopened st = st.
Proof.
  unfold in_sync, reopened, initializeState, handleSave. destruct st as [l cm ts].
  cbn. split; [now intros <-|]. intros E. now injection E.
Qed.

(** On a flat markup, an update of a name free of pattern syntax with a
    content that is not empty and has no [}], no [$] and no opener, and with a
    colour that is not empty, keeps the term list in step with the markup:
    the list it leaves is the one the extraction gives for the new markup and
    the new colour map, so saving and opening again shows the same state. *)
Theorem update_keeps_in_sync (ps : list piece) (st : State) (X c col : str) :
  flat ps = true -> latex st = unparse ps -> in_sync st ->
  plain X = true -> editable c = true -> nonempty col = true ->
  exists st', handleUpdateTerm st X c col = Some st'
              /\ terms st' = parseTermsFromLatex (latex st') (colorMap st')
              /\ reopened st' = st'.
Proof.
  intros F L Y PX Ec Ecol.
  apply editable_wf in Ec as (E1 & E2 & E3 & E4).
  rewrite (handleUpdateTerm_flat ps st F L X c col PX E4).
  eexists. split; [reflexivity|].
  assert (G : in_sync {| latex := unparse (map (set_content X c) ps);
                         colorMap := <[X := col]> (colorMap st);
                         terms := map (fun t => if decide (name t = X)
                                                then {| name := name t; content := c;
                                                        color := col |}
                                                else t) (terms st) |}).
  { unfold in_sync. cbn [terms latex colorMap].
    rewrite parse_flat_terms by now apply flat_set_content.
    rewrite annotations_set_content by exact E1.
    rewrite Y, L, parse_flat_terms by exact F.
    now apply update_colorize. }
  split; [exact G|]. now apply in_sync_reopened.
Qed.

Lemma update_keeps_in_sync_witness :
  exists st',
    handleUpdateTerm (handleLatexChange initial (unparse sample))
                     (lit "a") (lit "w") (lit "#000000") = Some st'
    /\ terms st' = parseTermsFromLatex (latex st') (colorMap st')
    /\ reopened st' = st'.
Proof.
  apply (update_keeps_in_sync sample); reflexivity.
Defined.

(** On a flat markup, the removal of a name free of pattern syntax keeps the
    names and the contents of the term list in step with the markup, and
    leaves no entry of that name in the colour map. *)
Theorem remove_keeps_outline (ps : list piece) (st : State) (X : str) :
  flat ps = true -> latex st = unparse ps ->
  outline (terms st) = outline (parseTermsFromLatex (latex st) (colorMap st)) ->
  plain X = true ->
  exists st', handleRemoveTerm st X = Some st'
              /\ outline (terms st')
                 = outline (parseTermsFromLatex (latex st') (colorMap st'))
              /\ colorMap st' !! X = None.
Proof.
  intros F L Y PX. rewrite (handleRemoveTerm_flat ps st F L X PX).
  eexists. split; [reflexivity|]. cbn [terms latex colorMap]. split.
  - rewrite outline_filter, Y, L, !parse_flat by (try apply flat_strip; exact F).
    now rewrite annotations_strip.
  - apply lookup_delete_eq.
Qed.

Lemma remove_keeps_outline_witness :
  exists st',
    handleRemoveTerm (handleLatexChange initial (unparse sample)) (lit "a") = Some st'
    /\ outline (terms st') = outline (parseTermsFromLatex (latex st') (colorMap st'))
    /\ colorMap st' !! lit "a" = None.
Proof.
  apply (remove_keeps_outline sample); reflexivity.
Defined.

(** ** How the edits compose *)


(** On a flat markup, two updates of the same name in a row, the first with
    a content that can stand in the markup, leave the state that the second
    one alone leaves: markup, colour map and term list. *)
Theorem update_twice (ps : list piece) (st : State) (X c1 col1 c2 col2 : str) :
  flat ps = true -> latex st = unparse ps ->
  plain X = true -> editable c1 = true -> no_char "$" c2 = true ->
  handleUpdateTerm st X c1 col1 ≫= (fun s => handleUpdateTerm s X c2 col2)
  = handleUpdateTerm st X c2 col2
  /\ is_Some (handleUpdateTerm st X c2 col2).
Proof.
  intros F L PX E1 D2. apply editable_wf in E1 as (N1 & B1 & C1 & D1).
  rewrite (handleUpdateTerm_flat ps st F L X c1 col1 PX D1).
  rewrite (handleUpdateTerm_flat ps st F L X c2 col2 PX D2).
  split; [|eexists; reflexivity]. cbn [mbind option_bind].
  rewrite handleUpdateTerm_pieces by (try apply flat_set_content; assumption).
  cbn [terms latex colorMap]. f_equal. f_equal.
  - rewrite map_map. f_equal. apply map_ext. intros p. now apply set_content_twice.
  - apply insert_insert_eq.
  - rewrite map_map. apply map_ext. intros t.
    destruct (decide (name t = X)) as [E|D]; cbn [name].
    + now rewrite decide_True by exact E.
    + now rewrite decide_False by exact D.
Qed.

Lemma update_twice_witness :
  let st := handleLatexChange initial (unparse sample) in
  handleUpdateTerm st (lit "a") (lit "u") (lit "#ef4444")
    ≫= (fun s => handleUpdateTerm s (lit "a") (lit "w") (lit "#000000"))
  = handleUpdateTerm st (lit "a") (lit "w") (lit "#000000")
  /\ is_Some (handleUpdateTerm st (lit "a") (lit "w") (lit "#000000")).
Proof.
  apply (update_twice sample); reflexivity.
Defined.

(** On a flat markup, the updates of two different names commute: either
    order leaves the same markup, colour map and term list. *)
Theorem updates_commute (ps : list piece) (st : State) (X c col Y d col' : str) :
  flat ps = true -> latex st = unparse ps ->
  plain X = true -> plain Y = true -> X <> Y ->
  editable c = true -> editable d = true ->
  handleUpdateTerm st X c col ≫= (fun s => handleUpdateTerm s Y d col')
  = handleUpdateTerm st Y d col' ≫= (fun s => handleUpdateTerm s X c col)
  /\ is_Some (handleUpdateTerm st X c col ≫= (fun s => handleUpdateTerm s Y d col')).
Proof.
  intros F L PX PY D Ec Ed.
  apply editable_wf in Ec as (Nc & Bc & Cc & Dc).
  apply editable_wf in Ed as (Nd & Bd & Cd & Dd).
  rewrite (handleUpdateTerm_flat ps st F L X c col PX Dc).
  rewrite (handleUpdateTerm_flat ps st F L Y d col' PY Dd).
  cbn [mbind option_bind].
  rewrite !handleUpdateTerm_pieces by (try apply flat_set_content; assumption).
  split; [|eexists; reflexivity].
  cbn [terms latex colorMap]. f_equal. f_equal.
  - rewrite !map_map. f_equal. apply map_ext. intros p. now apply set_content_comm.
  - apply insert_insert_ne. congruence.
  - rewrite !map_map. apply map_ext. intros t.
    repeat (case_decide; cbn [name] in * ); congruence.
Qed.

Lemma updates_commute_witness :
  let st := handleLatexChange initial (unparse sample) in
  handleUpdateTerm st (lit "a") (lit "u") (lit "#ef4444")
    ≫= (fun s => handleUpdateTerm s (lit "b") (lit "w") (lit "#000000"))
  = handleUpdateTerm st (lit "b") (lit "w") (lit "#000000")
      ≫= (fun s => handleUpdateTerm s (lit "a") (lit "u") (lit "#ef4444"))
  /\ is_Some (handleUpdateTerm st (lit "a") (lit "u") (lit "#ef4444")
                ≫= (fun s => handleUpdateTerm s (lit "b") (lit "w") (lit "#000000"))).
Proof.
  apply (updates_commute sample); try reflexivity. discriminate.
Defined.



(** ** An annotation whose content was emptied *)

Lemma update_empty_rewritten (N M : str) :
  plain N = true ->
  updateTermLatex N [] M = Some (rewritten (update_regex N) (annotation N []) 0 M).
Proof.
  intros HN. unfold updateTermLatex. rewrite compile_update by assumption. f_equal.
  unfold replace_str, rewritten, tokens. f_equal. apply map_ext. intros [c|m]; [reflexivity|].
  apply expand_plain. change (no_char "$" (lit "\clr{" ++ N ++ lit "}{}") = true).
  rewrite !no_char_app, (plain_no_char "$" N) by done. reflexivity.
Qed.

(** Whatever the markup, once [handleUpdateTerm] has given the annotations
    of a name free of pattern syntax an empty content, neither a further
    update nor the removal of that name changes the markup any more: the
    patterns of both ask for a content of one character at least. *)
Theorem emptied_term_is_out_of_reach (M N : str) :
  plain N = true ->
  exists R, updateTermLatex N [] M = Some R
            /\ (forall c', updateTermLatex N c' R = Some R)
            /\ removeTermLatex N R = Some R.
Proof.
  intros HN. rewrite (update_empty_rewritten N M HN).
  eexists. split; [reflexivity|].
  set (R := rewritten _ _ 0 M).
  assert (Hno : forall u c rest, c <> [] -> no_char "}" c = true ->
                                 R <> u ++ annotation N c ++ rest).
  { intros u c rest Hc Nc E.
    pose proof (rewritten_no_occurrence N HN (length M) M (Nat.le_refl _) 0 u _ E) as O.
    unfold occurs in O.
    rewrite (exec_update_annotation N HN) in O
      by (try assumption; now apply (plain_no_char "}" N)).
    unfold hit_update in O. rewrite decide_True in O by reflexivity.
    now destruct c. }
  split.
  - intros c'. now apply (unknown_plain_name_noop N HN R c').
  - now apply (unknown_plain_name_noop N HN R []).
Qed.

Lemma emptied_term_is_out_of_reach_witness :
  exists R, updateTermLatex (lit "a") [] (lit "\clr{b}{\clr{a}{x}+\clr{a}{y}") = Some R
            /\ (forall c', updateTermLatex (lit "a") c' R = Some R)
            /\ removeTermLatex (lit "a") R = Some R.
Proof.
  apply (emptied_term_is_out_of_reach (lit "\clr{b}{\clr{a}{x}+\clr{a}{y}") (lit "a")).
  reflexivity.
Defined.
(** ** The preview of a flat markup *)

Lemma preview_flat ps cm :
  flat ps = true ->
  (forall n c, (n, c) ∈ annotations ps -> inherited n = None) ->
  processedLatex (unparse ps) cm = unparse (map (shown_piece cm) ps).
Proof.
  intros F I. unfold processedLatex, replace_fn, tokens.
  rewrite (scan_pieces clr_regex clr_regex_opener hit_all) by
    (try assumption; intros; now apply exec_clr_annotation).
  set (g := fun p => match p with
                     | Text _ => p
                     | Clr n c =>
                       if nonempty n && nonempty c
                       then Text (lit "\textcolor{" ++ or_else (prop cm n) (lit "#888888")
                                  ++ lit "}{" ++ c ++ lit "}")
                       else p
                     end).
  rewrite (render_pieces _ hit_all g).
  - f_equal. apply map_ext_in. intros [t|n c] Hp; [reflexivity|].
    unfold g, shown_piece, rendered.
    destruct (nonempty n && nonempty c) eqn:E; [|reflexivity].
    apply andb_prop in E as [En Ec].
    rewrite prop_own.
    + unfold or_else. now destruct (cm !! n) as [[|x col]|].
    + apply (I n c). apply annotations_intro; [|assumption..].
      now apply list_elem_of_In.
  - reflexivity.
  - intros pos n c. unfold hit_all, g.
    destruct (nonempty n && nonempty c); reflexivity.
Qed.

Lemma shown_unparse ps cm : unparse (map (shown_piece cm) ps) = concat (map (shown cm) ps).
Proof.
  unfold unparse. rewrite map_map. f_equal. apply map_ext.
  intros [t|n c]; [reflexivity|]. unfold shown_piece, shown.
  now destruct (nonempty n && nonempty c).
Qed.

Lemma annotations_shown ps cm : annotations (map (shown_piece cm) ps) = [].
Proof.
  induction ps as [|[t|n c] ps IH]; [reflexivity|exact IH|]. cbn [map shown_piece].
  destruct (nonempty n && nonempty c) eqn:E; cbn [annotations]; [exact IH|].
  now rewrite E.
Qed.

Lemma flat_shown ps cm :
  (forall n v, cm !! n = Some v -> no_char "\" v = true) ->
  flat ps = true -> flat (map (shown_piece cm) ps) = true.
Proof.
  intros Hcm. unfold flat. rewrite !forallb_forall. intros F p Hp.
  apply in_map_iff in Hp as (q & <- & Hq). specialize (F q Hq).
  destruct q as [t|n c]; [exact F|]. unfold shown_piece.
  destruct (nonempty n && nonempty c); [|exact F].
  apply wf_clr in F as (_ & _ & _ & Cc). cbn [wf_piece rendered].
  apply calm_app; [reflexivity|]. apply calm_app.
  - destruct (cm !! n) as [[|x col]|] eqn:E; try reflexivity.
    apply no_backslash_calm. exact (Hcm _ _ E).
  - apply calm_app; [reflexivity|]. now apply calm_app.
Qed.


(** The preview of a flat markup in which no annotation has the name of a
    member of [Object.prototype], with a colour map whose colours have no
    backslash, leaves no annotation behind: the extraction finds no term in
    the text handed to the renderer. *)
Theorem preview_leaves_no_annotation (ps : list piece) (colorMap colors : gmap str str) :
  flat ps = true ->
  (forall n c, (n, c) ∈ annotations ps -> inherited n = None) ->
  (forall n v, colorMap !! n = Some v -> no_char "\" v = true) ->
  processedLatex (unparse ps) colorMap = concat (map (shown colorMap) ps)
  /\ parseTermsFromLatex (processedLatex (unparse ps) colorMap) colors = [].
Proof.
  intros F I Hcm. rewrite preview_flat by assumption. split; [apply shown_unparse|].
  rewrite parse_flat_terms by now apply flat_shown.
  now rewrite annotations_shown.
Qed.

Lemma preview_leaves_no_annotation_witness :
  processedLatex (unparse sample) a_is_black = concat (map (shown a_is_black) sample)
  /\ parseTermsFromLatex (processedLatex (unparse sample) a_is_black) ∅ = [].
Proof.
  apply (preview_leaves_no_annotation sample a_is_black ∅); [reflexivity|..].
  - intros n c H. simpl in H.
    repeat (apply elem_of_cons in H as [H|H]; [injection H as -> _; reflexivity|]).
    inversion H.
  - intros n v H. unfold a_is_black in H. apply lookup_singleton_Some in H as [_ <-].
    reflexivity.
Defined.


(** ** What the extraction finds, on any markup *)

Lemma or_else_nonempty v d : nonempty d = true -> nonempty (or_else v d) = true.
Proof. intros H. now destruct v as [[|x c]|]. Qed.

Lemma parse_term_wf (M : str) (colors : gmap str str) (i : nat) (t : Term) :
  parseTermsFromLatex M colors !! i = Some t ->
  nonempty (name t) = true /\ nonempty (content t) = true
  /\ no_char "}" (name t) = true /\ no_char "}" (content t) = true
  /\ color t = or_else (prop colors (name t)) (presetAt i)
  /\ exists u rest, M = u ++ annotation (name t) (content t) ++ rest.
Proof.
  intros Ht. apply pushTerms_lookup in Ht as [Ht|(m & Hm & _ & ->)]; [discriminate|].
  apply list_elem_of_lookup_2, hits_elem in Hm.
  apply scan_hit_exec in Hm as (_ & rest & X).
  apply exec_clr_inv in X as (n & c & Hg & Es & Hn & Hc & Nn & Nc).
  unfold captured. cbn [name content color fst snd]. rewrite Hg. cbn [nth].
  repeat split; try assumption; try (now destruct n); try (now destruct c).
  exists (firstn (index m - 0) M), rest. rewrite <- Es. symmetry. apply firstn_skipn.
Qed.

Lemma annotations_length ps : 10 * length (annotations ps) <= length (unparse ps).
Proof.
  induction ps as [|[t|n c] ps IH]; [simpl; lia|..].
  - change (unparse (Text t :: ps)) with (t ++ unparse ps). rewrite length_app.
    cbn [annotations]. lia.
  - change (unparse (Clr n c :: ps)) with (annotation n c ++ unparse ps).
    unfold annotation, opener. rewrite !length_app. cbn [annotations].
    destruct n as [|n0 n]; [cbn [nonempty andb]; simpl; lia|].
    destruct c as [|c0 c]; [cbn [nonempty andb]; simpl; lia|].
    cbn [nonempty andb]. simpl. lia.
Qed.

(** Whatever the markup, every extracted term stands in it as the text
    [\clr{name}{content}], its name and its content have no [}], and the
    terms do not overlap: there are at most as many as the length of the
    markup divided by ten, the length of the shortest annotation. *)
Theorem extracted_terms_stand_in_markup (M : str) (colors : gmap str str) :
  (forall t, t ∈ parseTermsFromLatex M colors ->
             no_char "}" (name t) = true /\ no_char "}" (content t) = true
             /\ exists u rest, M = u ++ annotation (name t) (content t) ++ rest)
  /\ 10 * length (parseTermsFromLatex M colors) <= length M.
Proof.
  split.
  - intros t Ht. apply list_elem_of_lookup in Ht as [i Ht].
    apply parse_term_wf in Ht as (_ & _ & Nn & Nc & _ & H). now repeat split.
  - destruct (scan_clr M 0 0 (Nat.le_0_l _)) as [G C]. fold (tokens clr_regex M) in G, C.
    assert (U : unparse (pieces M) = M).
    { unfold unparse, pieces. now rewrite pieces_unparse. }
    rewrite <- U at 2. rewrite parse_pieces.
    rewrite <- (length_map (fun t => (name t, content t))).
    fold (outline (colorize colors 0 (annotations (pieces M)))).
    rewrite outline_colorize. apply annotations_length.
Qed.

(** ** The colours of the term list *)

Lemma preset_values k preset :
  COLOR_PRESETS !! k = Some preset ->
  nonempty (value preset) = true /\ presetAt k = value preset.
Proof.
  intros H. do 8 (destruct k as [|k]; [injection H as <-; now split|]).
  discriminate H.
Qed.

Lemma presetAt_mod i : presetAt i = presetAt (i mod 8).
Proof.
  unfold presetAt. change (length COLOR_PRESETS) with 8.
  now rewrite Nat.Div0.mod_mod.
Qed.

Lemma presetAt_inj i j : i < 8 -> j < 8 -> presetAt i = presetAt j -> i = j.
Proof.
  intros Hi Hj.
  do 8 (destruct i as [|i]; [do 8 (destruct j as [|j]; [try reflexivity; discriminate|]); lia|]).
  lia.
Qed.

(** Two extracted terms for whose names the colour map has no entry, and
    whose names are not names of members of [Object.prototype], have the same
    colour exactly when their ranks in the extraction are equal modulo the
    eight presets: neighbours differ, the ninth term takes the colour of the
    first. *)
Theorem palette_is_cyclic (M : str) (colors : gmap str str) (i j : nat) (ti tj : Term) :
  parseTermsFromLatex M colors !! i = Some ti ->
  parseTermsFromLatex M colors !! j = Some tj ->
  colors !! name ti = None -> colors !! name tj = None ->
  inherited (name ti) = None -> inherited (name tj) = None ->
  (color ti = color tj <-> i mod 8 = j mod 8).
Proof.
  intros Hi Hj Ni Nj Ii Ij.
  apply parse_term_wf in Hi as (_ & _ & _ & _ & Ci & _).
  apply parse_term_wf in Hj as (_ & _ & _ & _ & Cj & _).
  rewrite Ci, Cj, !prop_own, Ni, Nj by assumption. cbn [or_else].
  rewrite (presetAt_mod i), (presetAt_mod j). split.
  - apply presetAt_inj; now apply Nat.mod_upper_bound.
  - now intros ->.
Qed.

Lemma palette_is_cyclic_witness :
  lit "#ef4444" = lit "#3b82f6" <-> 0 mod 8 = 1 mod 8.
Proof.
  exact (palette_is_cyclic two_terms ∅ 0 1
           {| name := lit "a"; content := lit "x"; color := lit "#ef4444" |}
           {| name := lit "b"; content := lit "y"; color := lit "#3b82f6" |}
           eq_refl eq_refl eq_refl eq_refl eq_refl eq_refl).
Defined.

(** ** The rows of the terms tab *)

Lemma filter_singleton_index {A} (P : A -> Prop) `{!forall x, Decision (P x)}
      (l : list A) (x : A) :
  filter P l = [x] ->
  forall i j a b, l !! i = Some a -> l !! j = Some b -> P a -> P b -> i = j.
Proof.
  induction l as [|a0 l IH]; intros E i j a b Hi Hj Pa Pb; [discriminate Hi|].
  destruct (decide (P a0)) as [P0|P0].
  - rewrite filter_cons_True in E by exact P0. injection E as _ E.
    assert (No : forall k y, l !! k = Some y -> ~ P y).
    { intros k y Hk Py.
      assert (Hy : y ∈ filter P l)
        by (apply list_elem_of_filter; split; [exact Py|now apply list_elem_of_lookup_2 in Hk]).
      rewrite E in Hy. inversion Hy. }
    destruct i as [|i], j as [|j]; [reflexivity|..].
    + now destruct (No j b Hj).
    + now destruct (No i a Hi).
    + now destruct (No i a Hi).
  - rewrite filter_cons_False in E by exact P0.
    destruct i as [|i]; [injection Hi as ->; tauto|].
    destruct j as [|j]; [injection Hj as ->; tauto|].
    f_equal. exact (IH E i j a b Hi Hj Pa Pb).
Qed.

Lemma set_content_id_on ps N c :
  nonempty N = true ->
  (forall c0, (N, c0) ∈ annotations ps -> c0 = c) ->
  map (set_content N c) ps = ps.
Proof.
  intros E H. apply map_id_on. intros [t|n c0] Hp; [reflexivity|]. unfold set_content.
  destruct (decide (n = N)) as [->|D]; [|reflexivity].
  destruct (nonempty c0) eqn:Ec; [|reflexivity].
  rewrite (H c0); [reflexivity|]. now apply annotations_intro.
Qed.

(** When the content input of a row loses the focus without having been
    changed, on a flat markup in which the name of the row stands once, the
    markup and the term list stay as they are, and the colour of the row is
    written into the colour map under its name. *)
Theorem blur_without_change (ps : list piece) (st : State) (i : nat) (t : Term) :
  flat ps = true -> latex st = unparse ps -> in_sync st ->
  terms st !! i = Some t ->
  plain (name t) = true -> no_char "$" (content t) = true ->
  named (name t) (annotations ps) = [(name t, content t)] ->
  react st (ContentBlurred i (TermEditor.mount (editorProps t)))
  = Some {| latex := latex st;
            colorMap := <[name t := color t]> (colorMap st);
            terms := terms st |}.
Proof.
  intros F L Y Ht PX D U. cbn [react]. rewrite Ht.
  cbn [callback TermEditor.onBlur TermEditor.mount editorProps TermEditor.termName
       TermEditor.localContent TermEditor.content TermEditor.color].
  rewrite (handleUpdateTerm_flat ps st F L _ _ _ PX D).
  assert (T : terms st = colorize (colorMap st) 0 (annotations ps)).
  { rewrite Y, L. now apply parse_flat_terms. }
  assert (O : forall k t', terms st !! k = Some t' ->
                           annotations ps !! k = Some (name t', content t')
                           /\ color t' = or_else (prop (colorMap st) (name t')) (presetAt k)).
  { intros k t' Hk. rewrite T in Hk.
    apply colorize_lookup in Hk as (n & c & Hk & ->). now split. }
  destruct (O i t Ht) as [Ai Ci].
  assert (EX : nonempty (name t) = true).
  { apply list_elem_of_lookup_2, annotations_elem in Ai. tauto. }
  f_equal. f_equal.
  - rewrite L. f_equal. apply set_content_id_on; [exact EX|].
    intros c0 H0.
    assert (H1 : (name t, c0) ∈ named (name t) (annotations ps))
      by (apply list_elem_of_filter; split; [reflexivity|exact H0]).
    rewrite U in H1. apply list_elem_of_singleton in H1. congruence.
  - apply map_id_on. intros t' Ht'. destruct (decide (name t' = name t)) as [E|_]; [|reflexivity].
    apply list_elem_of_lookup in Ht' as [k Hk]. destruct (O k t' Hk) as [Ak Ck].
    assert (k = i).
    { apply (filter_singleton_index (fun a : str * str => a.1 = name t) _ _ U
                                    k i _ _ Ak Ai); [exact E|reflexivity]. }
    subst k. rewrite Ht in Hk. injection Hk as <-. now destruct t.
Qed.

Lemma blur_without_change_witness :
  let st := handleLatexChange initial (unparse sample) in
  react st (ContentBlurred 1 (TermEditor.mount
                                {| TermEditor.termName := lit "b";
                                   TermEditor.content := lit "\alpha z";
                                   TermEditor.color := lit "#3b82f6" |}))
  = Some {| latex := unparse sample;
            colorMap := {[ lit "b" := lit "#3b82f6" ]};
            terms := terms st |}.
Proof.
  exact (blur_without_change sample (handleLatexChange initial (unparse sample)) 1
           {| name := lit "b"; content := lit "\alpha z"; color := lit "#3b82f6" |}
           eq_refl eq_refl eq_refl eq_refl eq_refl eq_refl eq_refl).
Defined.

(** After a preset of a row whose name is free of pattern syntax is picked,
    the colour map has the colour of the preset under the name of the row,
    the term of the row keeps its name and takes the content typed in the row
    and the colour of the preset, and the row marks the picked preset and no
    other one. *)
Theorem picked_preset_is_marked (st : State) (i k : nat) (l : TermEditor.Local)
        (t : Term) (preset : Preset) :
  terms st !! i = Some t -> COLOR_PRESETS !! k = Some preset ->
  plain (name t) = true -> TermEditor.showColorPicker l = true ->
  exists st',
    react st (PresetPicked i l k) = Some st'
    /\ colorMap st' !! name t = Some (value preset)
    /\ exists t',
         terms st' !! i = Some t'
         /\ name t' = name t
         /\ content t' = TermEditor.localContent l
         /\ forall j p, COLOR_PRESETS !! j = Some p ->
                        (TermEditor.isCurrent (editorProps t') p = true <-> j = k).
Proof.
  intros Ht Hk PX Sh. cbn [react]. rewrite Ht, Hk.
  unfold TermEditor.pickPreset. rewrite Sh.
  cbn [callback editorProps TermEditor.termName].
  unfold handleUpdateTerm, updateTermLatex. rewrite compile_update by exact PX.
  eexists. split; [reflexivity|]. cbn [colorMap terms]. split; [apply lookup_insert_eq|].
  eexists. split.
  - rewrite list_lookup_fmap, Ht. cbn [fmap option_fmap option_map].
    rewrite decide_True by reflexivity. reflexivity.
  - cbn [name content]. split; [reflexivity|split; [reflexivity|]].
    intros j p Hj. split.
    + unfold TermEditor.isCurrent. cbn [editorProps TermEditor.color color].
      intros E. apply bool_decide_eq_true in E.
      destruct (preset_values _ _ Hk) as [_ Ek], (preset_values _ _ Hj) as [_ Ej].
      rewrite <- Ek, <- Ej in E.
      apply lookup_lt_Some in Hk, Hj. change (length COLOR_PRESETS) with 8 in Hk, Hj.
      symmetry. now apply presetAt_inj.
    + intros ->. unfold TermEditor.isCurrent. cbn [editorProps TermEditor.color color].
      apply bool_decide_eq_true. congruence.
Qed.

Lemma picked_preset_is_marked_witness :
  exists st',
    react (handleLatexChange initial two_terms)
          (PresetPicked 1 {| TermEditor.localContent := lit "y";
                             TermEditor.showColorPicker := true |} 2) = Some st'
    /\ colorMap st' !! lit "b" = Some (lit "#22c55e")
    /\ terms st' !! 1 = Some {| name := lit "b"; content := lit "y"; color := lit "#22c55e" |}.
Proof.
  destruct (picked_preset_is_marked
              (handleLatexChange initial two_terms) 1 2
              {| TermEditor.localContent := lit "y"; TermEditor.showColorPicker := true |}
              {| name := lit "b"; content := lit "y"; color := lit "#3b82f6" |}
              {| label := lit "Green"; value := lit "#22c55e" |}
              eq_refl eq_refl eq_refl eq_refl) as (st' & R & C & _).
  exists st'. split; [exact R|]. split; [exact C|].
  vm_compute in R. injection R as <-. reflexivity.
Defined.

(** ** What holds of every state of the modal *)

Lemma parse_terms_ok M colors : Forall term_ok (parseTermsFromLatex M colors).
Proof.
  apply Forall_lookup. intros i t Ht.
  apply parse_term_wf in Ht as (En & _ & Nn & _ & Ct & _).
  repeat split; try assumption. rewrite Ct. apply or_else_nonempty, presetAt_nonempty.
Qed.

Lemma update_terms_ok ts X c col :
  nonempty col = true -> Forall term_ok ts ->
  Forall term_ok (map (fun t => if decide (name t = X)
                                then {| name := name t; content := c; color := col |}
                                else t) ts).
Proof.
  intros E H. apply Forall_fmap. eapply Forall_impl; [exact H|].
  intros t (H1 & H2 & H3). cbn. destruct (decide (name t = X)); now repeat split.
Qed.

(** The state a handler gives is the state of [updatedTo], or of [removedTo],
    for the markup its rewrite gives. *)
Lemma handleUpdateTerm_updatedTo (st : State) (termName newContent newColor : str) :
  handleUpdateTerm st termName newContent newColor
  = option_map (updatedTo st termName newContent newColor)
               (updateTermLatex termName newContent (latex st)).
Proof. unfold handleUpdateTerm. now destruct (updateTermLatex _ _ _). Qed.

Lemma handleRemoveTerm_removedTo (st : State) (termName : str) :
  handleRemoveTerm st termName
  = option_map (removedTo st termName) (removeTermLatex termName (latex st)).
Proof. unfold handleRemoveTerm. now destruct (removeTermLatex _ _). Qed.

(** The steps of the handlers are steps of [reachable]. *)
Lemma react_reachable (st st' : State) (e : event) :
  reachable st -> react st e = Some st' -> reachable st'.
Proof.
  intros H R. destruct e as [eq|v|i l|i l k|i]; cbn [react] in R.
  - injection R as <-. now apply reachable_opened with (st := st).
  - injection R as <-. now apply reachable_typed.
  - destruct (terms st !! i) as [t|] eqn:Ht; [|discriminate R].
    cbn [callback TermEditor.onBlur editorProps TermEditor.termName TermEditor.color] in R.
    unfold handleUpdateTerm in R. destruct (updateTermLatex _ _ _) as [l'|]; [|discriminate R].
    injection R as <-. exact (reachable_blurred st i t l l' H Ht).
  - destruct (terms st !! i) as [t|] eqn:Ht; [|discriminate R].
    destruct (COLOR_PRESETS !! k) as [preset|] eqn:Hk; [|discriminate R].
    unfold TermEditor.pickPreset in R.
    destruct (TermEditor.showColorPicker l); [|discriminate R].
    cbn [callback editorProps TermEditor.termName] in R.
    unfold handleUpdateTerm in R. destruct (updateTermLatex _ _ _) as [l'|]; [|discriminate R].
    injection R as <-. exact (reachable_picked st i t l k preset l' H Ht Hk).
  - destruct (terms st !! i) as [t|] eqn:Ht; [|discriminate R].
    cbn [callback TermEditor.clickRemove editorProps TermEditor.termName] in R.
    unfold handleRemoveTerm in R. destruct (removeTermLatex _ _) as [l'|]; [|discriminate R].
    injection R as <-. exact (reachable_removed st i t l' H Ht).
Qed.

Lemma perform_reachable (m m' : Modal) (g : gesture) :
  reachable (session m) -> perform m g = Some m' -> reachable (session m').
Proof.
  intros H P. destruct g as [e|t sel|sel|]; cbn [perform] in P.
  - assert (R : exists st', react (session m) e = Some st' /\ session m' = st').
    { destruct (renderedOn e) as [t|]; [destruct (isTab (activeTab m) t); [|discriminate P]|];
        (destruct (react (session m) e) as [st'|]; [|discriminate P]);
        injection P as <-; now exists st'. }
    destruct R as (st' & R & ->). exact (react_reachable _ _ _ H R).
  - now injection P as <-.
  - destruct (activeTab m); [|discriminate P]. now injection P as <-.
  - destruct (activeTab m) eqn:T; [discriminate P|]. injection P as <-.
    cbn [session]. unfold textareaRef. now rewrite T.
Qed.

(** Whatever happens to the modal (equations opened, markup typed, contents
    and colours of rows changed, rows removed, the add button clicked), and
    whatever the markup the rewrites of the handlers give, every term of the
    list has a name that is not empty and has no [}], and a colour that is
    not empty. *)
Theorem every_term_has_name_and_color (st : State) :
  reachable st -> Forall term_ok (terms st).
Proof.
  induction 1 as [|st eq _ _|st v _ _|st i t l l' _ IH Ht|st i t l k preset l' _ IH Ht Hk
                  |st i t l' _ IH Ht].
  - apply Forall_nil_2.
  - apply parse_terms_ok.
  - apply parse_terms_ok.
  - cbn [updatedTo terms]. apply update_terms_ok; [|exact IH].
    apply (Forall_lookup_1 _ _ _ _ IH) in Ht. apply Ht.
  - cbn [updatedTo terms]. apply update_terms_ok; [|exact IH].
    now apply preset_values in Hk.
  - cbn [removedTo terms]. rewrite Forall_forall in IH. apply Forall_forall.
    intros x Hx. apply list_elem_of_filter in Hx as [_ Hx]. now apply IH.
Qed.

Lemma every_term_has_name_and_color_witness :
  Forall term_ok
    [ {| name := lit "a|b"; content := lit "w"; color := lit "#ef4444" |} ].
Proof.
  apply (every_term_has_name_and_color
           (updatedTo (handleLatexChange initial (lit "\clr{a|b}{x}"))
                      (lit "a|b") (lit "w") (lit "#ef4444") (lit "\clr{a|b}{w}|b}{x}"))).
  apply (reachable_blurred
           (handleLatexChange initial (lit "\clr{a|b}{x}")) 0
           {| name := lit "a|b"; content := lit "x"; color := lit "#ef4444" |}
           {| TermEditor.localContent := lit "w"; TermEditor.showColorPicker := false |}).
  - apply reachable_typed, reachable_initial.
  - reflexivity.
Defined.

(** An equation opened without a colour map: the term of rank [i] of the
    list has the preset of rank [i] modulo eight, while the preview shows its
    annotation in [#888888], which is none of the presets, when no annotation
    has the name of a member of [Object.prototype]. *)
Theorem opened_without_colors (M : str) :
  (forall n c, (n, c) ∈ annotations (pieces M) -> inherited n = None) ->
  let st := initializeState {| Equation.latex := M; Equation.colorMap := None |} in
  latex st = M /\ colorMap st = ∅
  /\ (forall i t, terms st !! i = Some t -> color t = presetAt i)
  /\ processedLatex (latex st) (colorMap st)
     = concat (map (fun p => match p with
                             | Text t => t
                             | Clr n c => lit "\textcolor{#888888}{" ++ c ++ lit "}"
                             end) (pieces M))
  /\ (forall i, presetAt i <> lit "#888888").
Proof.
  intros I.
  cbn [initializeState Equation.latex Equation.colorMap default latex colorMap terms].
  split; [reflexivity|]. split; [reflexivity|]. split; [|split].
  - intros i t Ht. pose proof Ht as Hw.
    apply parse_term_wf in Hw as (En & Ec & _ & _ & C & _).
    rewrite C, prop_own, lookup_empty; [reflexivity|].
    apply (I _ (content t)). rewrite parse_pieces in Ht.
    apply colorize_lookup in Ht as (n & c & Hl & ->). cbn [name content].
    now apply list_elem_of_lookup_2 in Hl.
  - destruct (scan_clr M 0 0 (Nat.le_0_l _)) as [G _]. fold (tokens clr_regex M) in G.
    pose proof (pieces_annotations _ G) as A. fold (pieces M) in A.
    unfold processedLatex, replace_fn. f_equal. unfold pieces in *. rewrite map_map.
    assert (K : forall m, m ∈ hits (tokens clr_regex M) -> inherited (captured m).1 = None).
    { intros m Hm. apply (I _ (captured m).2). rewrite A.
      apply (list_elem_of_fmap_2 captured) in Hm. now destruct (captured m). }
    clear A I. induction (tokens clr_regex M) as [|[c|m] ts IH]; [reflexivity|..].
    + cbn [map]. f_equal. apply IH; [now inversion G|]. exact K.
    + cbn [map]. f_equal.
      * pose proof (K m (list_elem_of_here _ _)) as Km.
        unfold prop, captured in *. cbn [fst snd] in *. now rewrite lookup_empty, Km.
      * apply IH; [now inversion G|]. intros m' Hm'. apply K.
        now apply list_elem_of_further.
  - apply presetAt_not_neutral.
Qed.

Lemma opened_without_colors_witness :
  let st := initializeState {| Equation.latex := scenario; Equation.colorMap := None |} in
  latex st = scenario /\ colorMap st = ∅
  /\ (forall i t, terms st !! i = Some t -> color t = presetAt i)
  /\ processedLatex (latex st) (colorMap st)
     = concat (map (fun p => match p with
                             | Text t => t
                             | Clr n c => lit "\textcolor{#888888}{" ++ c ++ lit "}"
                             end) (pieces scenario))
  /\ (forall i, presetAt i <> lit "#888888").
Proof.
  apply (opened_without_colors scenario).
  intros n c H. vm_compute in H.
  repeat (apply elem_of_cons in H as [H|H]; [injection H as -> _; reflexivity|]).
  inversion H.
Defined.

(** ** Names that the pattern constructor refuses *)

(** A name that has a closing parenthesis after characters free of pattern
    syntax makes both handlers fail: the pattern built from the name has an
    unmatched parenthesis. The extraction accepts such a name, so the row of
    a term typed as [\clr{a)}{x}] fails on its update and on its removal. *)
Theorem unmatched_parenthesis_fails (st : State) (i : nat) (t : Term) (p q : str) :
  terms st !! i = Some t -> name t = p ++ ")" :: q -> plain p = true ->
  (forall l, react st (ContentBlurred i l) = None)
  /\ react st (RemoveClicked i) = None.
Proof.
  intros Ht En Pp.
  assert (C : forall suffix,
             compile (lit "\\clr\{" ++ (p ++ ")" :: q) ++ suffix) = None).
  { intros suffix. unfold compile.
    change (parse false [] (lit "\\clr\{" ++ (p ++ ")" :: q) ++ suffix))
      with (parse false (rev (lits opener)) ((p ++ ")" :: q) ++ suffix)).
    rewrite <- app_assoc, parse_plain by assumption. reflexivity. }
  split; [intros l|]; cbn [react]; rewrite Ht;
    cbn [callback TermEditor.onBlur TermEditor.clickRemove editorProps TermEditor.termName];
    rewrite En.
  - unfold handleUpdateTerm, updateTermLatex. now rewrite C.
  - unfold handleRemoveTerm, removeTermLatex. now rewrite C.
Qed.

Lemma unmatched_parenthesis_fails_witness :
  (forall l, react (handleLatexChange initial (lit "\clr{a)}{x}")) (ContentBlurred 0 l) = None)
  /\ react (handleLatexChange initial (lit "\clr{a)}{x}")) (RemoveClicked 0) = None.
Proof.
  exact (unmatched_parenthesis_fails
           (handleLatexChange initial (lit "\clr{a)}{x}")) 0
           {| name := lit "a)"; content := lit "x"; color := lit "#ef4444" |}
           (lit "a") [] eq_refl eq_refl eq_refl).
Defined.

(** ** Names that the pattern constructor accepts *)

(** Whatever the markup, the content and the colour, the two handlers do not
    fail on a name free of pattern syntax. *)
Theorem plain_names_never_fail (st : State) (X c col : str) :
  plain X = true ->
  is_Some (handleUpdateTerm st X c col) /\ is_Some (handleRemoveTerm st X).
Proof.
  intros PX. split.
  - unfold handleUpdateTerm, updateTermLatex.
    rewrite compile_update by exact PX. eexists. reflexivity.
  - unfold handleRemoveTerm, removeTermLatex.
    rewrite compile_remove by exact PX. eexists. reflexivity.
Qed.

Lemma plain_names_never_fail_witness :
  is_Some (handleUpdateTerm (handleLatexChange initial tangled) (lit "N") (lit "$&") [])
  /\ is_Some (handleRemoveTerm (handleLatexChange initial tangled) (lit "N")).
Proof.
  exact (plain_names_never_fail (handleLatexChange initial tangled)
                                (lit "N") (lit "$&") [] eq_refl).
Defined.

(** ** The colour map after an edit *)

(** The colour a term was given stays with its name: after an update of a
    name free of pattern syntax with a colour that is not empty, whatever
    markup is typed, every extracted term of that name has that colour. After
    the removal of the name, when it is not the name of a member of
    [Object.prototype], a term of that name typed again takes the preset of
    its rank. *)
Theorem chosen_color_stays (st : State) (X c col : str) :
  plain X = true -> nonempty col = true ->
  exists st',
    handleUpdateTerm st X c col = Some st'
    /\ (forall M t, t ∈ terms (handleLatexChange st' M) -> name t = X -> color t = col)
    /\ exists st'',
         handleRemoveTerm st' X = Some st''
         /\ (inherited X = None ->
             forall M i t, terms (handleLatexChange st'' M) !! i = Some t ->
                           name t = X -> color t = presetAt i).
Proof.
  intros PX Ecol. unfold handleUpdateTerm, updateTermLatex.
  rewrite compile_update by exact PX. eexists. split; [reflexivity|]. split.
  - intros M t Ht En. cbn [handleLatexChange terms colorMap] in Ht.
    apply list_elem_of_lookup in Ht as [i Ht].
    apply parse_term_wf in Ht as (_ & _ & _ & _ & C & _).
    rewrite C, En, prop_insert_eq. now destruct col.
  - unfold handleRemoveTerm, removeTermLatex. cbn [latex colorMap terms].
    rewrite compile_remove by exact PX. eexists. split; [reflexivity|].
    intros I M i t Ht En. cbn [handleLatexChange terms colorMap] in Ht.
    apply parse_term_wf in Ht as (_ & _ & _ & _ & C & _).
    now rewrite C, En, prop_own, lookup_delete_eq.
Qed.

Lemma chosen_color_stays_witness :
  exists st',
    handleUpdateTerm (handleLatexChange initial one_term) (lit "a") (lit "w") (lit "#000000")
    = Some st'
    /\ (forall M t, t ∈ terms (handleLatexChange st' M) -> name t = lit "a"
                    -> color t = lit "#000000")
    /\ exists st'',
         handleRemoveTerm st' (lit "a") = Some st''
         /\ (inherited (lit "a") = None ->
             forall M i t, terms (handleLatexChange st'' M) !! i = Some t ->
                           name t = lit "a" -> color t = presetAt i).
Proof.
  exact (chosen_color_stays (handleLatexChange initial one_term)
                            (lit "a") (lit "w") (lit "#000000") eq_refl eq_refl).
Defined.
